(** * Alloy IDE: the LSP transport and session manager

    A shallow embedding of [src/alloy-ide/src-tauri/src/lsp/transport.rs]
    and [src/alloy-ide/src-tauri/src/lsp/manager.rs], and of the JSON
    helpers of the Tauri commands that call the manager
    ([src/alloy-ide/src-tauri/src/commands/lsp.rs]). *)

From Stdlib Require Import ZArith String Ascii List Lia.
From stdpp Require Import base gmap list strings.
Import ListNotations.

#[local] Set Warnings "-register-all".

Local Open Scope Z_scope.

(* ------------------------------------------------------------------ *)
(** ** JSON values ([serde_json::Value]) *)

(** [serde_json::Number]: a non-negative integer that fits a [u64], a
    negative integer that fits an [i64], or a float (kept as the text it
    prints as). *)
Inductive number :=
| NPosInt (n : Z)
| NNegInt (n : Z)
| NFloat (repr : string).

Inductive json :=
| JNull
| JBool (b : bool)
| JNumber (n : number)
| JString (s : string)
| JArray (l : list json)
| JObject (l : list (string * json)).

Definition i64_min : Z := - 2 ^ 63.
Definition i64_max : Z := 2 ^ 63 - 1.

(** [Number::as_i64] *)
Definition as_i64 (n : number) : option Z :=
  match n with
  | NPosInt k => if k <=? i64_max then Some k else None
  | NNegInt k => Some k
  | NFloat _ => None
  end.

(** [serde_json::Value::from(i64)] *)
Definition json_of_i64 (k : Z) : json :=
  if 0 <=? k then JNumber (NPosInt k) else JNumber (NNegInt k).

(** Decimal rendering of a natural number (Display of [u64]/[usize]),
    most significant digit first; 20 digits cover every 64-bit value. *)
Fixpoint digits_rev (fuel : nat) (n : Z) : list Z :=
  match fuel with
  | O => []
  | S f => (n mod 10) :: (if n <? 10 then [] else digits_rev f (n / 10))
  end.

Definition decimal_digits (n : Z) : list Z := rev (digits_rev 20 n).

Definition char_of_code (c : Z) : ascii := ascii_of_nat (Z.to_nat c).

Definition string_of_codes (l : list Z) : string :=
  string_of_list_ascii (map char_of_code l).

Definition decimal_string (n : Z) : string :=
  string_of_codes (map (fun d => 48 + d) (decimal_digits n)).

(** The double quote and backslash characters. *)
Definition dq : string := String (ascii_of_nat 34) EmptyString.
Definition bs : string := String (ascii_of_nat 92) EmptyString.

Definition hex_digit (d : Z) : ascii :=
  if d <? 10 then char_of_code (48 + d) else char_of_code (87 + d).

(** serde_json's string escaping: quote, backslash, the short escapes of
    the control characters and [\u00XX] for the other ones. *)
Definition escape_char (c : ascii) : string :=
  let n := Z.of_nat (nat_of_ascii c) in
  if n =? 34 then (bs ++ dq)%string
  else if n =? 92 then (bs ++ bs)%string
  else if n =? 8 then (bs ++ "b")%string
  else if n =? 12 then (bs ++ "f")%string
  else if n =? 10 then (bs ++ "n")%string
  else if n =? 13 then (bs ++ "r")%string
  else if n =? 9 then (bs ++ "t")%string
  else if n <? 32 then
    (bs ++ "u00" ++ String (hex_digit (n / 16)) (String (hex_digit (n mod 16)) EmptyString))%string
  else String c EmptyString.

Fixpoint escape_string (s : string) : string :=
  match s with
  | EmptyString => EmptyString
  | String c s' => (escape_char c ++ escape_string s')%string
  end.

Definition quote (s : string) : string := (dq ++ escape_string s ++ dq)%string.

Definition number_to_string (n : number) : string :=
  match n with
  | NPosInt k => decimal_string k
  | NNegInt k => ("-" ++ decimal_string (- k))%string
  | NFloat r => r
  end.

Fixpoint join (sep : string) (l : list string) : string :=
  match l with
  | [] => EmptyString
  | [x] => x
  | x :: l' => (x ++ sep ++ join sep l')%string
  end.

(** [impl Display for Value]: the compact serialisation. Object entries are
    printed in the order the map iterates them. *)
Fixpoint json_to_string (v : json) : string :=
  match v with
  | JNull => "null"
  | JBool true => "true"
  | JBool false => "false"
  | JNumber n => number_to_string n
  | JString s => quote s
  | JArray l => ("[" ++ join "," (map json_to_string l) ++ "]")%string
  | JObject l =>
      ("{" ++ join "," (map (fun '(k, x) => quote k ++ ":" ++ json_to_string x) l)
           ++ "}")%string
  end.

(* ------------------------------------------------------------------ *)
(** ** [LspMessage] and its derived [Deserialize] *)

Record LspMessage := {
  msg_id : option json;
  msg_method : option string;
  msg_result : option json;
  msg_error : option json;
  msg_params : option json
}.

(** [Option<Value>]: JSON [null] deserialises to [None]. *)
Definition de_option_value (v : json) : option json :=
  match v with JNull => None | _ => Some v end.

(** [Option<String>]: [null] is [None], a string is [Some], anything else
    is a type error (outer [None]). *)
Definition de_option_string (v : json) : option (option string) :=
  match v with
  | JNull => Some None
  | JString s => Some (Some s)
  | _ => None
  end.

(** The fields seen so far while visiting a JSON object; [None] means
    "not seen yet" (the [#[serde(default)]] value is used at the end). *)
Record seen := {
  s_id : option (option json);
  s_method : option (option string);
  s_result : option (option json);
  s_error : option (option json);
  s_params : option (option json)
}.

Definition seen_none : seen := Build_seen None None None None None.

(** One entry of the object: a known field seen twice is the
    [duplicate_field] error, an unknown key is ignored. *)
Definition visit_entry (acc : seen) (kv : string * json) : option seen :=
  let '(k, v) := kv in
  if String.eqb k "id" then
    match s_id acc with
    | Some _ => None
    | None => Some (Build_seen (Some (de_option_value v)) (s_method acc)
                      (s_result acc) (s_error acc) (s_params acc))
    end
  else if String.eqb k "method" then
    match s_method acc with
    | Some _ => None
    | None =>
        match de_option_string v with
        | None => None
        | Some m => Some (Build_seen (s_id acc) (Some m)
                            (s_result acc) (s_error acc) (s_params acc))
        end
    end
  else if String.eqb k "result" then
    match s_result acc with
    | Some _ => None
    | None => Some (Build_seen (s_id acc) (s_method acc)
                      (Some (de_option_value v)) (s_error acc) (s_params acc))
    end
  else if String.eqb k "error" then
    match s_error acc with
    | Some _ => None
    | None => Some (Build_seen (s_id acc) (s_method acc) (s_result acc)
                      (Some (de_option_value v)) (s_params acc))
    end
  else if String.eqb k "params" then
    match s_params acc with
    | Some _ => None
    | None => Some (Build_seen (s_id acc) (s_method acc) (s_result acc)
                      (s_error acc) (Some (de_option_value v)))
    end
  else Some acc.

Fixpoint visit_map (acc : seen) (l : list (string * json)) : option seen :=
  match l with
  | [] => Some acc
  | kv :: l' =>
      match visit_entry acc kv with
      | None => None
      | Some acc' => visit_map acc' l'
      end
  end.

Definition or_default {A} (o : option (option A)) : option A :=
  match o with Some x => x | None => None end.

Definition finish_seen (s : seen) : LspMessage :=
  {| msg_id := or_default (s_id s);
     msg_method := or_default (s_method s);
     msg_result := or_default (s_result s);
     msg_error := or_default (s_error s);
     msg_params := or_default (s_params s) |}.

(** [visit_seq]: the fields in declaration order; a missing trailing
    element takes its default, an extra element is an error. *)
Definition visit_seq (l : list json) : option LspMessage :=
  match l with
  | [] => Some (finish_seen seen_none)
  | [a] => Some {| msg_id := de_option_value a; msg_method := None;
                   msg_result := None; msg_error := None; msg_params := None |}
  | a :: b :: r =>
      match de_option_string b with
      | None => None
      | Some m =>
          match r with
          | [] => Some {| msg_id := de_option_value a; msg_method := m;
                          msg_result := None; msg_error := None; msg_params := None |}
          | [c] => Some {| msg_id := de_option_value a; msg_method := m;
                           msg_result := de_option_value c; msg_error := None;
                           msg_params := None |}
          | [c; d] => Some {| msg_id := de_option_value a; msg_method := m;
                              msg_result := de_option_value c;
                              msg_error := de_option_value d; msg_params := None |}
          | [c; d; e] => Some {| msg_id := de_option_value a; msg_method := m;
                                 msg_result := de_option_value c;
                                 msg_error := de_option_value d;
                                 msg_params := de_option_value e |}
          | _ => None
          end
      end
  end.

(** [serde_json::from_str::<LspMessage>] on a body whose JSON text parses
    to [v] (the top-level object's entries in text order). *)
Definition decode_message (v : json) : option LspMessage :=
  match v with
  | JObject l => option_map finish_seen (visit_map seen_none l)
  | JArray l => visit_seq l
  | _ => None
  end.

Definition is_some {A} (o : option A) : bool :=
  match o with Some _ => true | None => false end.

Definition is_response (m : LspMessage) : bool :=
  is_some (msg_id m) && negb (is_some (msg_method m)).

Definition is_notification (m : LspMessage) : bool :=
  negb (is_some (msg_id m)) && is_some (msg_method m).

Definition is_request (m : LspMessage) : bool :=
  is_some (msg_id m) && is_some (msg_method m).

(* ------------------------------------------------------------------ *)
(** ** The transport ([LspTransport]) *)

(** [AtomicI64::fetch_add] wraps around on overflow. *)
Definition wrap_i64 (z : Z) : Z := (z + 2 ^ 63) mod 2 ^ 64 - 2 ^ 63.

(** The state shared by the callers of one transport and its reader task.
    [pending] is the [HashMap<RequestId, oneshot::Sender>] (a sender has no
    data of its own: it is the caller's end-point); [delivered] records, per
    id, the message a caller's [oneshot::Receiver] received;
    [notifications] is the sequence of messages sent on [notification_tx];
    [written] the messages written to the child's stdin;
    [reader_running] whether [reader_loop] has not returned yet;
    [stdin_error] the I/O error a write to stdin fails with, if any. *)
Record transport := {
  next_id : Z;
  pending : gmap Z unit;
  delivered : gmap Z LspMessage;
  notifications : list LspMessage;
  written : list json;
  reader_running : bool;
  stdin_error : option string
}.

(** [LspTransport::new]: [next_id] starts at 1, nothing pending, the reader
    task spawned. *)
Definition transport_new (stdin_error : option string) : transport :=
  {| next_id := 1; pending := ∅; delivered := ∅; notifications := [];
     written := []; reader_running := true; stdin_error := stdin_error |}.

(** [self.next_id.fetch_add(1, SeqCst)]: returns the old value. *)
Definition fetch_add_id (t : transport) : Z * transport :=
  (next_id t,
   {| next_id := wrap_i64 (next_id t + 1); pending := pending t;
      delivered := delivered t; notifications := notifications t;
      written := written t; reader_running := reader_running t;
      stdin_error := stdin_error t |}).

(** The reader's [pending.remove(&id)] followed by [tx.send(msg)]. *)
Definition deliver (id : Z) (msg : LspMessage) (t : transport) : transport :=
  {| next_id := next_id t; pending := delete id (pending t);
     delivered := <[id := msg]> (delivered t);
     notifications := notifications t; written := written t;
     reader_running := reader_running t; stdin_error := stdin_error t |}.

(** [self.pending.lock().await.insert(id, tx)] *)
Definition insert_pending (k : Z) (t : transport) : transport :=
  {| next_id := next_id t; pending := <[k := tt]> (pending t);
     delivered := delivered t; notifications := notifications t;
     written := written t; reader_running := reader_running t;
     stdin_error := stdin_error t |}.

(** [send_raw]: writes the framed message under the writer lock. *)
Definition send_raw (msg : json) (t : transport) : transport * option string :=
  match stdin_error t with
  | Some e => (t, Some ("Failed to write to LSP: " ++ e)%string)
  | None =>
      ({| next_id := next_id t; pending := pending t;
          delivered := delivered t; notifications := notifications t;
          written := written t ++ [msg]; reader_running := reader_running t;
          stdin_error := stdin_error t |}, None)
  end.

(** The serialised [LspRequest] / [LspNotification]; [params] is skipped
    when [None]. *)
Definition request_json (id : Z) (method : string) (params : option json) : json :=
  JObject ([("jsonrpc", JString "2.0"); ("id", json_of_i64 id);
            ("method", JString method)]
           ++ match params with Some p => [("params", p)] | None => [] end).

Definition notification_json (method : string) (params : option json) : json :=
  JObject ([("jsonrpc", JString "2.0"); ("method", JString method)]
           ++ match params with Some p => [("params", p)] | None => [] end).

(** The first part of [LspTransport::request], up to the [rx.await]:
    allocate the id, register the pending entry, write the request. On a
    write error the call returns that error (the entry stays). *)
Definition request_send (method : string) (params : option json) (t : transport)
  : Z * transport * option string :=
  let '(id, t1) := fetch_add_id t in
  let t2 := insert_pending id t1 in
  let '(t3, err) := send_raw (request_json id method params) t2 in
  (id, t3, err).

(** [LspTransport::notify] *)
Definition notify (method : string) (params : option json) (t : transport)
  : transport * option string :=
  send_raw (notification_json method params) t.

(** What [rx.await] yields: the message sent on the one-shot channel, or
    the [RecvError] of a sender dropped without sending. *)
Inductive recv_result :=
| RecvOk (m : LspMessage)
| RecvClosed.

Inductive result (A E : Type) :=
| Ok (a : A)
| Err (e : E).
Arguments Ok {A E} a.
Arguments Err {A E} e.

(** The rest of [LspTransport::request], after [rx.await]. *)
Definition finish_request (r : recv_result) : result json string :=
  match r with
  | RecvClosed => Err "LSP response channel closed"
  | RecvOk response =>
      match msg_error response with
      | Some err => Err ("LSP error: " ++ json_to_string err)%string
      | None =>
          Ok (match msg_result response with Some v => v | None => JNull end)
      end
  end.

(** The routing part of one iteration of [reader_loop], for a body that
    parsed to the JSON value [v]. *)
Definition route (v : json) (t : transport) : transport :=
  match decode_message v with
  | None => t (* [Err(_) => continue] *)
  | Some msg =>
      if is_response msg then
        match msg_id msg with
        | Some (JNumber n) =>
            match as_i64 n with
            | Some id =>
                match pending t !! id with
                | Some _ => deliver id msg t
                | None => t
                end
            | None => t
            end
        | _ => t
        end
      else
        {| next_id := next_id t; pending := pending t; delivered := delivered t;
           notifications := notifications t ++ [msg]; written := written t;
           reader_running := reader_running t; stdin_error := stdin_error t |}
  end.

(** The atomic steps that callers and the reader task interleave: a
    caller's [fetch_add], a caller's insertion of its pending entry under
    the lock, the reader's handling of one inbound frame, and the reader
    returning (end of stream or read error). *)
Inductive event :=
| EAlloc
| EInsert (k : Z)
| EFrame (v : json)
| EReaderExit.

Definition step (t : transport) (e : event) : transport :=
  match e with
  | EAlloc => snd (fetch_add_id t)
  | EInsert k => insert_pending k t
  | EFrame v => if reader_running t then route v t else t
  | EReaderExit =>
      {| next_id := next_id t; pending := pending t; delivered := delivered t;
         notifications := notifications t; written := written t;
         reader_running := false; stdin_error := stdin_error t |}
  end.

Definition run (t : transport) (tr : list event) : transport :=
  fold_left step tr t.

(** The ids handed out by the [fetch_add]s of a run, in order. *)
Fixpoint assigned_ids (t : transport) (tr : list event) : list Z :=
  match tr with
  | [] => []
  | e :: tr' =>
      match e with
      | EAlloc => [next_id t]
      | _ => []
      end ++ assigned_ids (step t e) tr'
  end.

(** A message answers the request with id [k]: it is a response whose id is
    a JSON number that [as_i64] reads as [k]. *)
Definition answers (k : Z) (m : LspMessage) : bool :=
  is_response m &&
  match msg_id m with
  | Some (JNumber n) =>
      match as_i64 n with Some i => bool_decide (i = k) | None => false end
  | _ => false
  end.

(** What the caller of id [k] receives, read off the events after its
    insertion: the first frame answering [k] that the reader handles. *)
Fixpoint first_answer (k : Z) (tr : list event) : option LspMessage :=
  match tr with
  | [] => None
  | EFrame v :: tr' =>
      match decode_message v with
      | Some m => if answers k m then Some m else first_answer k tr'
      | None => first_answer k tr'
      end
  | EReaderExit :: _ => None
  | _ :: tr' => first_answer k tr'
  end.

(** The outcome of the caller of id [k], once its receiver got a message. *)
Definition call_outcome (t : transport) (k : Z) : option (result json string) :=
  option_map (fun m => finish_request (RecvOk m)) (delivered t !! k).

(* ------------------------------------------------------------------ *)
(** ** Content-Length framing: [send_raw] and the header/body part of
    [reader_loop]. Bytes are integers in [0, 256). *)

Definition bytes_of_string (s : string) : list Z :=
  map (fun c => Z.of_nat (nat_of_ascii c)) (list_ascii_of_string s).

Definition content_length_prefix : list Z := bytes_of_string "Content-Length: ".

(** The decimal digits of [n] as ASCII bytes, as [format!] writes them. *)
Definition ascii_digits (n : Z) : list Z := map (fun d => 48 + d) (decimal_digits n).

(** [format!("Content-Length: {}\r\n\r\n{}", json.len(), json).as_bytes()]
    for a body whose UTF-8 bytes are [body]; [json.len()] is the byte
    length. *)
Definition frame (body : list Z) : list Z :=
  content_length_prefix
  ++ map (fun d => 48 + d) (decimal_digits (Z.of_nat (length body)))
  ++ [13; 10; 13; 10] ++ body.

Definition is_cont (b : Z) : bool := (128 <=? b) && (b <=? 191).

(** UTF-8 validation and decoding ([std::str::from_utf8]): the code points,
    or [None] for an invalid sequence (overlong forms, surrogates and
    values above U+10FFFF are rejected). *)
Fixpoint utf8_decode (l : list Z) : option (list Z) :=
  match l with
  | [] => Some []
  | b1 :: r1 =>
      if b1 <? 128 then option_map (cons b1) (utf8_decode r1)
      else
        match r1 with
        | [] => None
        | b2 :: r2 =>
            if (194 <=? b1) && (b1 <=? 223) then
              if is_cont b2
              then option_map (cons ((b1 - 192) * 64 + (b2 - 128))) (utf8_decode r2)
              else None
            else
              match r2 with
              | [] => None
              | b3 :: r3 =>
                  if (224 <=? b1) && (b1 <=? 239) then
                    let ok2 :=
                      if b1 =? 224 then (160 <=? b2) && (b2 <=? 191)
                      else if b1 =? 237 then (128 <=? b2) && (b2 <=? 159)
                      else is_cont b2 in
                    if ok2 && is_cont b3
                    then option_map
                           (cons ((b1 - 224) * 4096 + (b2 - 128) * 64 + (b3 - 128)))
                           (utf8_decode r3)
                    else None
                  else
                    match r3 with
                    | [] => None
                    | b4 :: r4 =>
                        if (240 <=? b1) && (b1 <=? 244) then
                          let ok2 :=
                            if b1 =? 240 then (144 <=? b2) && (b2 <=? 191)
                            else if b1 =? 244 then (128 <=? b2) && (b2 <=? 143)
                            else is_cont b2 in
                          if ok2 && is_cont b3 && is_cont b4
                          then option_map
                                 (cons ((b1 - 240) * 262144 + (b2 - 128) * 4096
                                        + (b3 - 128) * 64 + (b4 - 128)))
                                 (utf8_decode r4)
                          else None
                        else None
                    end
              end
        end
  end.

(** [read_until(b'\n')]: the bytes up to and including the first newline. *)
Fixpoint split_line (s : list Z) : list Z * list Z :=
  match s with
  | [] => ([], [])
  | b :: r =>
      if b =? 10 then ([b], r)
      else let '(l, r') := split_line r in (b :: l, r')
  end.

Inductive line_read :=
| LineEof                          (* [Ok(0)] *)
| LineErr                          (* [Err(_)]: the line is not UTF-8 *)
| Line (cs : list Z) (rest : list Z).

(** [BufReader::read_line] *)
Definition read_line (s : list Z) : line_read :=
  match s with
  | [] => LineEof
  | _ =>
      let '(l, r) := split_line s in
      match utf8_decode l with
      | Some cs => Line cs r
      | None => LineErr
      end
  end.

(** [char::is_whitespace]: the Unicode White_Space property. *)
Definition is_whitespace (c : Z) : bool :=
  ((9 <=? c) && (c <=? 13)) || (c =? 32) || (c =? 133) || (c =? 160)
  || (c =? 5760) || ((8192 <=? c) && (c <=? 8202)) || (c =? 8232)
  || (c =? 8233) || (c =? 8239) || (c =? 8287) || (c =? 12288).

Fixpoint drop_ws (cs : list Z) : list Z :=
  match cs with
  | [] => []
  | c :: r => if is_whitespace c then drop_ws r else cs
  end.

(** [str::trim] *)
Definition trim (cs : list Z) : list Z := rev (drop_ws (rev (drop_ws cs))).

(** [str::strip_prefix] *)
Fixpoint strip_prefix (p cs : list Z) : option (list Z) :=
  match p, cs with
  | [], _ => Some cs
  | x :: p', c :: cs' => if x =? c then strip_prefix p' cs' else None
  | _ :: _, [] => None
  end.

Definition usize_max : Z := 2 ^ 64 - 1.

(** The digit loop of [usize::from_str] (checked multiply and add). *)
Fixpoint parse_digits (acc : Z) (cs : list Z) : option Z :=
  match cs with
  | [] => Some acc
  | c :: r =>
      if (48 <=? c) && (c <=? 57) then
        let a := acc * 10 + (c - 48) in
        if a <=? usize_max then parse_digits a r else None
      else None
  end.

(** [str::parse::<usize>] (64-bit target): an optional [+] then one or
    more decimal digits. *)
Definition parse_usize (cs : list Z) : option Z :=
  match cs with
  | [] => None
  | c :: r =>
      if c =? 43 then (match r with [] => None | _ => parse_digits 0 r end)
      else if c =? 45 then (match r with [] => None | _ => parse_digits 0 cs end)
      else parse_digits 0 cs
  end.

(** The header loop of [reader_loop]: [None] when the loop returns (end of
    stream or read error), otherwise the [content_length] reached at the
    blank line and the rest of the stream. Every line read consumes at
    least one byte, so [S (length s)] rounds of fuel never run out. *)
Fixpoint read_headers (fuel : nat) (content_length : option Z) (s : list Z)
  : option (option Z * list Z) :=
  match fuel with
  | O => None
  | S f =>
      match read_line s with
      | LineEof | LineErr => None
      | Line line rest =>
          match trim line with
          | [] => Some (content_length, rest)
          | trimmed =>
              match strip_prefix content_length_prefix trimmed with
              | Some v => read_headers f (parse_usize v) rest
              | None => read_headers f content_length rest
              end
          end
      end
  end.

Inductive frame_read :=
| FrameEnd                          (* [reader_loop] returns *)
| FrameSkip (rest : list Z)         (* no length: [continue] *)
| FrameBody (body rest : list Z).

(** Headers, then [read_exact] of [length] bytes. *)
Definition read_frame (s : list Z) : frame_read :=
  match read_headers (S (length s)) None s with
  | None => FrameEnd
  | Some (None, rest) => FrameSkip rest
  | Some (Some len, rest) =>
      if Z.of_nat (length rest) <? len then FrameEnd
      else FrameBody (firstn (Z.to_nat len) rest) (skipn (Z.to_nat len) rest)
  end.

(* ------------------------------------------------------------------ *)
(** ** The session manager ([LspManager]) *)

Inductive LspStatus :=
| Stopped
| Starting
| Running
| Error (reason : string).

(** The receiving half of the notification channel of the transport built
    over the child with the given process id. *)
Inductive receiver := NotificationRx (pid : Z).

(** The [LspManager] fields; [m_transport] is the transport the manager
    holds. *)
Record manager := {
  m_transport : option transport;
  m_status : LspStatus;
  m_project_root : option string;
  m_notification_rx : option receiver
}.

(** [LspManager::new] *)
Definition manager_new : manager :=
  {| m_transport := None; m_status := Stopped; m_project_root := None;
     m_notification_rx := None |}.

(** [LspManager::status] *)
Definition status (m : manager) : LspStatus := m_status m.

(** [LspManager::take_notification_rx]: [Option::take]. *)
Definition take_notification_rx (m : manager) : option receiver * manager :=
  (m_notification_rx m,
   {| m_transport := m_transport m; m_status := m_status m;
      m_project_root := m_project_root m; m_notification_rx := None |}).

(** A spawned child; its stdin and stdout are there when they were piped. *)
Record child := {
  child_pid : Z;
  child_has_stdin : bool;
  child_has_stdout : bool
}.

(** What [start] observes of the outside world: environment variables, the
    file system, process spawning, the target OS, whether writes to the
    child's stdin fail, and what the receiver of the [initialize] request
    gets from the reader task. *)
Record env := {
  getenv : string -> option string;
  path_exists : string -> bool;
  read_dir : string -> result (list string) string;
  create_dir_all : string -> option string;
  spawn : string -> list string -> result child string;
  process_id : Z;
  target_os : string;
  child_stdin_error : option string;
  initialize_reply : recv_result
}.

Definition ends_with (suffix s : string) : bool :=
  (String.length suffix <=? String.length s)%nat
  && String.eqb (substring (String.length s - String.length suffix)
                           (String.length suffix) s) suffix.

Definition starts_with (pre s : string) : bool := String.prefix pre s.

(** [Path::join] on [/]-separated paths. *)
Definition path_join (base p : string) : string :=
  if starts_with "/" p then p
  else if String.eqb base "" then p
  else if ends_with "/" base then (base ++ p)%string
  else (base ++ "/" ++ p)%string.

(** [{:?}] of a path: quoted, with the escapes of [str::escape_debug] for
    quote, backslash, tab, carriage return and newline. *)
Fixpoint debug_escape (s : string) : string :=
  match s with
  | EmptyString => EmptyString
  | String c s' =>
      let n := nat_of_ascii c in
      ((if (n =? 34)%nat then bs ++ dq
        else if (n =? 92)%nat then bs ++ bs
        else if (n =? 9)%nat then bs ++ "t"
        else if (n =? 13)%nat then bs ++ "r"
        else if (n =? 10)%nat then bs ++ "n"
        else String c EmptyString) ++ debug_escape s')%string
  end.

Definition debug_path (p : string) : string := (dq ++ debug_escape p ++ dq)%string.

(** [LspManager::find_jdtls] *)
Definition find_jdtls (e : env) : option string :=
  let from_env :=
    match getenv e "JDTLS_HOME" with
    | Some home => if path_exists e home then Some home else None
    | None => None
    end in
  match from_env with
  | Some p => Some p
  | None =>
      let home := match getenv e "HOME" with Some h => h | None => "" end in
      let candidates :=
        ["/opt/homebrew/opt/jdtls/libexec"; "/usr/local/opt/jdtls/libexec";
         "/usr/share/java/jdtls"; "/usr/local/share/jdtls";
         (home ++ "/.local/share/jdtls")%string] in
      find (path_exists e) candidates
  end.

(** [LspManager::find_java]: [$JAVA_HOME/bin/java] when it exists, else
    the bare name [java] (looked up on [PATH] when spawned). *)
Definition find_java (e : env) : option string :=
  match getenv e "JAVA_HOME" with
  | Some java_home =>
      let java := path_join java_home "bin/java" in
      if path_exists e java then Some java else Some "java"
  | None => Some "java"
  end.

(** [LspManager::find_launcher_jar]; [read_dir] lists the names of the
    entries that could be read ([entries.flatten()]). *)
Definition find_launcher_jar (e : env) (plugins_dir : string) : result string string :=
  if negb (path_exists e plugins_dir) then
    Err ("JDT LS plugins directory not found: " ++ debug_path plugins_dir)%string
  else
    match read_dir e plugins_dir with
    | Err err => Err ("Failed to read plugins dir: " ++ err)%string
    | Ok names =>
        match find (fun n => starts_with "org.eclipse.equinox.launcher_" n
                             && ends_with ".jar" n) names with
        | Some n => Ok (path_join plugins_dir n)
        | None => Err "Equinox launcher JAR not found in JDT LS plugins directory"
        end
    end.

(** [LspManager::find_config_dir] *)
Definition find_config_dir (e : env) (jdtls_home : string) : result string string :=
  let os_config :=
    if String.eqb (target_os e) "macos" then "config_mac"
    else if String.eqb (target_os e) "windows" then "config_win"
    else "config_linux" in
  let config := path_join jdtls_home os_config in
  if path_exists e config then Ok config
  else
    let config := path_join jdtls_home "config" in
    if path_exists e config then Ok config
    else Err ("JDT LS config directory not found (tried " ++ os_config
              ++ " and config)")%string.

(** [LspManager::simple_hash]: djb2 over the bytes, wrapping in [u64]. *)
Definition simple_hash (s : string) : Z :=
  fold_left (fun h c => (h * 33 + Z.of_nat (nat_of_ascii c)) mod 2 ^ 64)
            (list_ascii_of_string s) 5381.

Fixpoint hex_rev (fuel : nat) (n : Z) : list ascii :=
  match fuel with
  | O => []
  | S f => hex_digit (n mod 16) :: (if n <? 16 then [] else hex_rev f (n / 16))
  end.

(** [format!("{:x}", hash)] for a [u64]. *)
Definition lower_hex (n : Z) : string := string_of_list_ascii (rev (hex_rev 16 n)).

(** [LspManager::workspace_data_dir] *)
Definition workspace_data_dir (e : env) (project_root : string) : string :=
  let home := match getenv e "HOME" with Some h => h | None => "/tmp" end in
  path_join (path_join (path_join home ".alloy-ide") "jdtls-workspace")
            (lower_hex (simple_hash project_root)).

Fixpoint split_slash_aux (cur : list ascii) (l : list ascii) : list string :=
  match l with
  | [] => [string_of_list_ascii (rev cur)]
  | c :: l' =>
      if (nat_of_ascii c =? 47)%nat
      then string_of_list_ascii (rev cur) :: split_slash_aux [] l'
      else split_slash_aux (c :: cur) l'
  end.

(** [Path::file_name]: the last normal component ([.] and empty components
    are not components; [..] has no file name). *)
Definition file_name (p : string) : option string :=
  let comps := List.filter (fun c => negb (String.eqb c "" || String.eqb c "."))
                      (split_slash_aux [] (list_ascii_of_string p)) in
  match last comps with
  | Some c => if String.eqb c ".." then None else Some c
  | None => None
  end.

(** The [initialize] params of [start] (entries as written in the source). *)
Definition initialize_params (e : env) (project_root : string) : json :=
  let root_uri := JString ("file://" ++ project_root)%string in
  JObject
    [("processId", JNumber (NPosInt (process_id e)));
     ("rootUri", root_uri);
     ("capabilities",
       JObject
         [("textDocument",
            JObject
              [("completion",
                 JObject [("completionItem",
                            JObject [("snippetSupport", JBool true);
                                     ("resolveSupport",
                                       JObject [("properties",
                                                  JArray [JString "documentation";
                                                          JString "detail"])])])]);
               ("hover", JObject [("contentFormat",
                                    JArray [JString "markdown"; JString "plaintext"])]);
               ("definition", JObject []);
               ("references", JObject []);
               ("publishDiagnostics", JObject [("relatedInformation", JBool true)]);
               ("synchronization",
                 JObject [("didSave", JBool true); ("willSave", JBool false);
                          ("willSaveWaitUntil", JBool false)])]);
          ("workspace", JObject [("workspaceFolders", JBool true)])]);
     ("workspaceFolders",
       JArray [JObject [("uri", root_uri);
                        ("name", JString (match file_name project_root with
                                          | Some n => n
                                          | None => "project"
                                          end))]]);
     ("initializationOptions",
       JObject
         [("settings",
            JObject
              [("java",
                 JObject
                   [("home", match getenv e "JAVA_HOME" with
                             | Some h => JString h
                             | None => JNull
                             end);
                    ("configuration", JObject [("runtimes", JArray [])]);
                    ("import", JObject [("gradle", JObject [("enabled", JBool true)])])])])])].

(** The arguments of the [java] command. *)
Definition jvm_args (launcher_jar config_dir data_dir : string) : list string :=
  ["-Declipse.application=org.eclipse.jdt.ls.core.id1";
   "-Dosgi.bundles.defaultStartLevel=4";
   "-Declipse.product=org.eclipse.jdt.ls.core.product";
   "-Dlog.level=ALL"; "-Xmx512m"; "--add-modules=ALL-SYSTEM";
   "--add-opens"; "java.base/java.util=ALL-UNNAMED";
   "--add-opens"; "java.base/java.lang=ALL-UNNAMED";
   "-jar"; launcher_jar; "-configuration"; config_dir; "-data"; data_dir].

Definition jdtls_not_found : string :=
  "Eclipse JDT LS not found. Set JDTLS_HOME or install via: brew install jdtls".

Definition java_not_found : string :=
  "Java not found. Set JAVA_HOME or install Java 21+".

(** The [initialize] request through the new transport: send it, then the
    reader hands its receiver [initialize_reply] (a reply message is
    removed from the pending table and delivered). *)
Definition initialize_request (e : env) (project_root : string) (t : transport)
  : result json string * transport :=
  let '(id, t1, werr) :=
    request_send "initialize" (Some (initialize_params e project_root)) t in
  match werr with
  | Some err => (Err err, t1)
  | None =>
      let t2 := match initialize_reply e with
                | RecvOk msg => deliver id msg t1
                | RecvClosed => t1
                end in
      (finish_request (initialize_reply e), t2)
  end.

(** [LspManager::start], run without interference from other calls on the
    same manager. *)
Definition start (e : env) (m : manager) (project_root : string)
  : result unit string * manager :=
  match m_status m with
  | Running | Starting => (Ok tt, m)
  | _ =>
      let m1 := {| m_transport := m_transport m; m_status := Starting;
                   m_project_root := Some project_root;
                   m_notification_rx := m_notification_rx m |} in
      match find_jdtls e with
      | None => (Err jdtls_not_found, m1)
      | Some jdtls_home =>
      match find_java e with
      | None => (Err java_not_found, m1)
      | Some java =>
      let plugins_dir := path_join jdtls_home "plugins" in
      match find_launcher_jar e plugins_dir with
      | Err err => (Err err, m1)
      | Ok launcher_jar =>
      match find_config_dir e jdtls_home with
      | Err err => (Err err, m1)
      | Ok config_dir =>
      let data_dir := workspace_data_dir e project_root in
      match create_dir_all e data_dir with
      | Some err => (Err ("Failed to create workspace dir: " ++ err)%string, m1)
      | None =>
      match spawn e java (jvm_args launcher_jar config_dir data_dir) with
      | Err err => (Err ("Failed to spawn JDT LS: " ++ err)%string, m1)
      | Ok ch =>
      if negb (child_has_stdin ch) then (Err "Failed to get JDT LS stdin", m1)
      else if negb (child_has_stdout ch) then (Err "Failed to get JDT LS stdout", m1)
      else
      let t0 := transport_new (child_stdin_error e) in
      match initialize_request e project_root t0 with
      | (Err err, _) => (Err err, m1)
      | (Ok _, t1) =>
      match notify "initialized" (Some (JObject [])) t1 with
      | (_, Some err) => (Err err, m1)
      | (t2, None) =>
          (Ok tt, {| m_transport := Some t2; m_status := Running;
                     m_project_root := Some project_root;
                     m_notification_rx := Some (NotificationRx (child_pid ch)) |})
      end end end end end end end end
  end.

(** [LspManager::stop]: the best-effort [shutdown] request and [exit]
    notification go to the held transport (their results are ignored, the
    caller of [shutdown] waits for [shutdown_reply]); then everything is
    cleared. The transport as the manager leaves it is returned too. *)
Definition stop (shutdown_reply : recv_result) (m : manager)
  : result unit string * manager * option transport :=
  let last :=
    match m_transport m with
    | Some t =>
        let '(id, t1, werr) := request_send "shutdown" None t in
        let t2 := match werr, shutdown_reply with
                  | None, RecvOk msg => deliver id msg t1
                  | _, _ => t1
                  end in
        Some (fst (notify "exit" None t2))
    | None => None
    end in
  (Ok tt,
   {| m_transport := None; m_status := Stopped; m_project_root := None;
      m_notification_rx := None |},
   last).

(** The feature operations of the manager, with their arguments. Lines,
    characters and versions are the [u32]/[i32] values the host passes. *)
Inductive feature :=
| DidOpen (uri language_id text : string)
| DidChange (uri : string) (version : Z) (text : string)
| DidClose (uri : string)
| DidSave (uri text : string)
| Completion (uri : string) (line character : Z)
| Hover (uri : string) (line character : Z)
| GotoDefinition (uri : string) (line character : Z)
| References (uri : string) (line character : Z)
| Rename (uri : string) (line character : Z) (new_name : string)
| WorkspaceSymbols (query : string)
| SignatureHelp (uri : string) (line character : Z)
| DocumentSymbols (uri : string)
| CodeActions (uri : string) (start_line start_character end_line end_character : Z)
              (diagnostics : list json)
| PrepareRename (uri : string) (line character : Z).

Definition json_u32 (n : Z) : json := JNumber (NPosInt n).

Definition text_document (uri : string) : json := JObject [("uri", JString uri)].

Definition position (line character : Z) : json :=
  JObject [("line", json_u32 line); ("character", json_u32 character)].

(** A feature is either a notification or a request, with its method name
    and params object. *)
Inductive lsp_call :=
| CallNotify (method : string) (params : json)
| CallRequest (method : string) (params : json).

Definition feature_call_of (f : feature) : lsp_call :=
  match f with
  | DidOpen uri language_id text =>
      CallNotify "textDocument/didOpen"
        (JObject [("textDocument",
                    JObject [("uri", JString uri); ("languageId", JString language_id);
                             ("version", json_of_i64 1); ("text", JString text)])])
  | DidChange uri version text =>
      CallNotify "textDocument/didChange"
        (JObject [("textDocument",
                    JObject [("uri", JString uri); ("version", json_of_i64 version)]);
                  ("contentChanges", JArray [JObject [("text", JString text)]])])
  | DidClose uri =>
      CallNotify "textDocument/didClose" (JObject [("textDocument", text_document uri)])
  | DidSave uri text =>
      CallNotify "textDocument/didSave"
        (JObject [("textDocument", text_document uri); ("text", JString text)])
  | Completion uri l c =>
      CallRequest "textDocument/completion"
        (JObject [("textDocument", text_document uri); ("position", position l c)])
  | Hover uri l c =>
      CallRequest "textDocument/hover"
        (JObject [("textDocument", text_document uri); ("position", position l c)])
  | GotoDefinition uri l c =>
      CallRequest "textDocument/definition"
        (JObject [("textDocument", text_document uri); ("position", position l c)])
  | References uri l c =>
      CallRequest "textDocument/references"
        (JObject [("textDocument", text_document uri); ("position", position l c);
                  ("context", JObject [("includeDeclaration", JBool true)])])
  | Rename uri l c new_name =>
      CallRequest "textDocument/rename"
        (JObject [("textDocument", text_document uri); ("position", position l c);
                  ("newName", JString new_name)])
  | WorkspaceSymbols query =>
      CallRequest "workspace/symbol" (JObject [("query", JString query)])
  | SignatureHelp uri l c =>
      CallRequest "textDocument/signatureHelp"
        (JObject [("textDocument", text_document uri); ("position", position l c)])
  | DocumentSymbols uri =>
      CallRequest "textDocument/documentSymbol"
        (JObject [("textDocument", text_document uri)])
  | CodeActions uri sl sc el ec diagnostics =>
      CallRequest "textDocument/codeAction"
        (JObject [("textDocument", text_document uri);
                  ("range", JObject [("start", position sl sc); ("end", position el ec)]);
                  ("context", JObject [("diagnostics", JArray diagnostics)])])
  | PrepareRename uri l c =>
      CallRequest "textDocument/prepareRename"
        (JObject [("textDocument", text_document uri); ("position", position l c)])
  end.

(** How far a feature call gets without waiting: it fails, its notification
    is written, or its request is written and awaits the reply for [id]. *)
Inductive call_progress :=
| CallFailed (err : string)
| CallNotified
| CallAwaiting (id : Z).

Definition with_transport (m : manager) (t : transport) : manager :=
  {| m_transport := Some t; m_status := m_status m;
     m_project_root := m_project_root m; m_notification_rx := m_notification_rx m |}.

(** Every feature operation: [self.transport().await.ok_or("LSP not
    running")?] and then [notify] or [request] on that transport. *)
Definition feature_call (m : manager) (f : feature) : call_progress * manager :=
  match m_transport m with
  | None => (CallFailed "LSP not running", m)
  | Some t =>
      match feature_call_of f with
      | CallNotify method params =>
          let '(t', err) := notify method (Some params) t in
          (match err with Some e => CallFailed e | None => CallNotified end,
           with_transport m t')
      | CallRequest method params =>
          let '(id, t', err) := request_send method (Some params) t in
          (match err with Some e => CallFailed e | None => CallAwaiting id end,
           with_transport m t')
      end
  end.

(** Whether an event is the reader's exit. *)
Definition is_exit (e : event) : bool :=
  match e with EReaderExit => true | _ => false end.

(** The number of [fetch_add]s in a run. *)
Definition count_allocs (tr : list event) : nat :=
  length (List.filter (fun e => match e with EAlloc => true | _ => false end) tr).

(** The messages the reader pushes on the notification channel for the
    frames [vs], in read order: every decoded message that is not a
    response. *)
Fixpoint forwarded (vs : list json) : list LspMessage :=
  match vs with
  | [] => []
  | v :: vs' =>
      match decode_message v with
      | Some m => if is_response m then forwarded vs' else m :: forwarded vs'
      | None => forwarded vs'
      end
  end.

(** What the receiver of the caller of [k] observes: the message it got,
    nothing yet while its sender is still registered, or [RecvError] once
    the sender is gone without sending. *)
Definition receiver_view (t : transport) (k : Z) : option recv_result :=
  match delivered t !! k with
  | Some m => Some (RecvOk m)
  | None => match pending t !! k with Some _ => None | None => Some RecvClosed end
  end.

(** Operations on a started manager other than [start]. *)
Inductive manager_op :=
| OpTake
| OpFeature (f : feature)
| OpStop (shutdown_reply : recv_result)
| OpStatus.

Definition apply_op (m : manager) (op : manager_op) : manager :=
  match op with
  | OpTake => snd (take_notification_rx m)
  | OpFeature f => snd (feature_call m f)
  | OpStop reply => snd (fst (stop reply m))
  | OpStatus => m
  end.

Definition run_ops (m : manager) (ops : list manager_op) : manager :=
  fold_left apply_op ops m.

(* ------------------------------------------------------------------ *)
(** ** Helpers for stating properties *)

(** The names of the fields of [LspMessage]. *)
Definition field_names : list string := ["id"; "method"; "result"; "error"; "params"].

(** Whether the visitor has already seen the field named [k]. *)
Definition field_seen (k : string) (s : seen) : bool :=
  if String.eqb k "id" then is_some (s_id s)
  else if String.eqb k "method" then is_some (s_method s)
  else if String.eqb k "result" then is_some (s_result s)
  else if String.eqb k "error" then is_some (s_error s)
  else if String.eqb k "params" then is_some (s_params s)
  else false.

(** The header [send_raw] writes before a body of [n] bytes. *)
Definition frame_header (n : Z) : list Z :=
  content_length_prefix ++ ascii_digits n ++ [13; 10; 13; 10].

(** The value of a lower-case hexadecimal digit. *)
Definition hex_value (c : ascii) : option Z :=
  let n := Z.of_nat (nat_of_ascii c) in
  if (48 <=? n) && (n <=? 57) then Some (n - 48)
  else if (97 <=? n) && (n <=? 102) then Some (n - 87)
  else None.

(** Reading a string of lower-case hexadecimal digits back as a number. *)
Fixpoint parse_hex_from (acc : Z) (cs : list ascii) : option Z :=
  match cs with
  | [] => Some acc
  | c :: r => match hex_value c with
              | Some d => parse_hex_from (acc * 16 + d) r
              | None => None
              end
  end.

Definition parse_hex (s : string) : option Z := parse_hex_from 0 (list_ascii_of_string s).

(* ------------------------------------------------------------------ *)
(** ** The Tauri commands ([src/alloy-ide/src-tauri/src/commands/lsp.rs])
    that call the manager, and their JSON helpers. *)

(** [Value::get] with a [&str] key: on an object, the map lookup (the
    parsed map keeps the last value of a repeated key), otherwise [None]. *)
Fixpoint map_get (k : string) (l : list (string * json)) : option json :=
  match l with
  | [] => None
  | (k', x) :: l' =>
      match map_get k l' with
      | Some y => Some y
      | None => if String.eqb k' k then Some x else None
      end
  end.

Definition value_get (k : string) (v : json) : option json :=
  match v with JObject l => map_get k l | _ => None end.

(** [Value::as_str], [Value::as_u64], [Value::as_array], [Value::is_null] *)
Definition as_str (v : json) : option string :=
  match v with JString s => Some s | _ => None end.

Definition as_u64 (v : json) : option Z :=
  match v with JNumber (NPosInt n) => Some n | _ => None end.

Definition as_array (v : json) : option (list json) :=
  match v with JArray l => Some l | _ => None end.

Definition is_null (v : json) : bool :=
  match v with JNull => true | _ => false end.

(** [Value::as_object] followed by [Map::get]. *)
Definition object_get (k : string) (v : json) : option json :=
  match v with JObject l => map_get k l | _ => None end.

(** [n as u32] for a [u64]: truncation. *)
Definition as_u32 (n : Z) : Z := n mod 2 ^ 32.

(** [Iterator::filter_map] collected. *)
Fixpoint filter_map {A B} (f : A -> option B) (l : list A) : list B :=
  match l with
  | [] => []
  | x :: l' => match f x with Some y => y :: filter_map f l' | None => filter_map f l' end
  end.

(** [str::strip_prefix] on strings. *)
Fixpoint str_strip_prefix (pre s : string) : option string :=
  match pre, s with
  | EmptyString, _ => Some s
  | String c pre', String c' s' => if Ascii.eqb c c' then str_strip_prefix pre' s' else None
  | String _ _, EmptyString => None
  end.

(** [path_to_uri] *)
Definition path_to_uri (path : string) : string := ("file://" ++ path)%string.

(** [uri_to_path] *)
Definition uri_to_path (uri : string) : string :=
  match str_strip_prefix "file://" uri with Some p => p | None => uri end.

Record CompletionItem := {
  ci_label : string;
  ci_kind : string;
  ci_detail : option string;
  ci_insert_text : option string;
  ci_sort_text : option string
}.

(** [completion_kind_to_string] *)
Definition completion_kind_to_string (kind : Z) : string :=
  match kind with
  | 1 => "text" | 2 => "method" | 3 => "function" | 4 => "constructor"
  | 5 => "field" | 6 => "variable" | 7 => "class" | 8 => "interface"
  | 9 => "module" | 10 => "property" | 11 => "unit" | 12 => "value"
  | 13 => "enum" | 14 => "keyword" | 15 => "snippet" | 16 => "color"
  | 17 => "file" | 18 => "reference" | 19 => "folder" | 20 => "enum_member"
  | 21 => "constant" | 22 => "struct" | 23 => "event" | 24 => "operator"
  | 25 => "type_parameter"
  | _ => "text"
  end.

(** The closure of [parse_completions] applied to one item. *)
Definition parse_completion_item (item : json) : option CompletionItem :=
  label ← (value_get "label" item ≫= as_str);
  Some {| ci_label := label;
          ci_kind := match value_get "kind" item ≫= as_u64 with
                     | Some k => completion_kind_to_string k
                     | None => "text"
                     end;
          ci_detail := value_get "detail" item ≫= as_str;
          ci_insert_text :=
            (match value_get "insertText" item with
             | Some t => Some t
             | None => value_get "textEdit" item ≫= value_get "newText"
             end) ≫= as_str;
          ci_sort_text := value_get "sortText" item ≫= as_str |}.

(** [parse_completions]: a [CompletionItem[]] or a [CompletionList]. *)
Definition parse_completions (value : json) : list CompletionItem :=
  match as_array value with
  | Some arr => filter_map parse_completion_item arr
  | None =>
      match value_get "items" value ≫= as_array with
      | Some items => filter_map parse_completion_item items
      | None => []
      end
  end.

(** The newline character. *)
Definition nl : string := String (ascii_of_nat 10) EmptyString.

(** [extract_hover_contents] *)
Definition extract_hover_contents (contents : json) : string :=
  match as_str contents with
  | Some s => s
  | None =>
      match object_get "value" contents ≫= as_str with
      | Some value => value
      | None =>
          match as_array contents with
          | Some arr =>
              join (nl ++ nl)
                (filter_map (fun v => match as_str v with
                                      | Some s => Some s
                                      | None => object_get "value" v ≫= as_str
                                      end) arr)
          | None => EmptyString
          end
      end
  end.

Record HoverResult := { hover_contents : string }.

(** [lsp_hover] after the [hover] request returned [reply]. *)
Definition lsp_hover (reply : result json string) : result (option HoverResult) string :=
  match reply with
  | Err e => Err e
  | Ok result =>
      if is_null result then Ok None
      else
        let contents := match value_get "contents" result with
                        | Some contents => extract_hover_contents contents
                        | None => EmptyString
                        end in
        if String.eqb contents "" then Ok None
        else Ok (Some {| hover_contents := contents |})
  end.

Record LocationResult := {
  loc_uri : string;
  loc_line : Z;
  loc_character : Z
}.

(** The closure of [parse_locations] applied to one location. *)
Definition parse_location (loc : json) : option LocationResult :=
  uri ← (value_get "uri" loc ≫= as_str);
  range ← value_get "range" loc;
  start ← value_get "start" range;
  line ← (value_get "line" start ≫= as_u64);
  character ← (value_get "character" start ≫= as_u64);
  Some {| loc_uri := uri_to_path uri; loc_line := as_u32 line;
          loc_character := as_u32 character |}.

(** [parse_locations]: a [Location[]] or a single [Location]. *)
Definition parse_locations (value : json) : list LocationResult :=
  match as_array value with
  | Some arr => filter_map parse_location arr
  | None =>
      match value with
      | JObject _ => filter_map parse_location [value]
      | _ => []
      end
  end.

Record Diagnostic := {
  d_path : string;
  d_line : Z;
  d_character : Z;
  d_end_line : Z;
  d_end_character : Z;
  d_severity : string;
  d_message : string;
  d_source : option string
}.

(** The severity names of [parse_diagnostics]. *)
Definition severity_name (s : Z) : string :=
  match s with 1 => "error" | 2 => "warning" | 3 => "info" | 4 => "hint" | _ => "info" end.

(** The closure of [parse_diagnostics] applied to one diagnostic. *)
Definition parse_diagnostic (path : string) (d : json) : option Diagnostic :=
  range ← value_get "range" d;
  start ← value_get "start" range;
  end_ ← value_get "end" range;
  let severity := match value_get "severity" d ≫= as_u64 with
                  | Some s => severity_name s
                  | None => "info"
                  end in
  message ← (value_get "message" d ≫= as_str);
  let source := value_get "source" d ≫= as_str in
  line ← (value_get "line" start ≫= as_u64);
  character ← (value_get "character" start ≫= as_u64);
  end_line ← (value_get "line" end_ ≫= as_u64);
  end_character ← (value_get "character" end_ ≫= as_u64);
  Some {| d_path := path; d_line := as_u32 line; d_character := as_u32 character;
          d_end_line := as_u32 end_line; d_end_character := as_u32 end_character;
          d_severity := severity; d_message := message; d_source := source |}.

(** [parse_diagnostics] on the params of [textDocument/publishDiagnostics]. *)
Definition parse_diagnostics (params : json) : list Diagnostic :=
  let uri := match value_get "uri" params ≫= as_str with Some u => u | None => EmptyString end in
  let path := uri_to_path uri in
  let diagnostics := match value_get "diagnostics" params ≫= as_array with
                     | Some l => l
                     | None => []
                     end in
  filter_map (parse_diagnostic path) diagnostics.

Record SignatureInfo := {
  sig_label : string;
  sig_parameters : list string
}.

(** The [SignatureHelp] struct of the commands (the name is taken by the
    feature). *)
Record SignatureHelpResult := {
  signatures : list SignatureInfo;
  active_signature : Z;
  active_parameter : Z
}.

Definition parse_signature (sig : json) : option SignatureInfo :=
  label ← (value_get "label" sig ≫= as_str);
  let parameters :=
    match value_get "parameters" sig ≫= as_array with
    | Some params => filter_map (fun p => value_get "label" p ≫= as_str) params
    | None => []
    end in
  Some {| sig_label := label; sig_parameters := parameters |}.

(** [lsp_signature_help] after the [signature_help] request returned
    [reply]. *)
Definition lsp_signature_help (reply : result json string)
  : result (option SignatureHelpResult) string :=
  match reply with
  | Err e => Err e
  | Ok result =>
      if is_null result then Ok None
      else
        let sigs := match value_get "signatures" result ≫= as_array with
                    | Some arr => filter_map parse_signature arr
                    | None => []
                    end in
        match sigs with
        | [] => Ok None
        | _ =>
            Ok (Some {| signatures := sigs;
                        active_signature :=
                          as_u32 (match value_get "activeSignature" result ≫= as_u64 with
                                  | Some s => s | None => 0 end);
                        active_parameter :=
                          as_u32 (match value_get "activeParameter" result ≫= as_u64 with
                                  | Some p => p | None => 0 end) |})
        end
  end.

(* ------------------------------------------------------------------ *)
(** ** Sample inputs *)

(** A response frame [{"jsonrpc":"2.0","id":k,"result":r}]. *)
Definition response_frame (k : Z) (r : json) : json :=
  JObject [("jsonrpc", JString "2.0"); ("id", JNumber (NPosInt k)); ("result", r)].

(** Three callers allocate ids 1, 2, 3 and insert their entries; the
    replies come back in the order 3, 1, 2. *)
Definition three_callers : list event := [EAlloc; EAlloc; EAlloc; EInsert 1; EInsert 2].

(** Two notifications and a server request around a response. *)
Definition notification_frame (method : string) (params : json) : json :=
  JObject [("jsonrpc", JString "2.0"); ("method", JString method); ("params", params)].

Definition mixed_frames : list json :=
  [notification_frame "window/logMessage" (JObject [("message", JString "a")]);
   response_frame 1 JNull;
   JObject [("id", JNumber (NPosInt 9)); ("method", JString "client/registerCapability")];
   notification_frame "textDocument/publishDiagnostics" (JObject [])].

(** A response-shaped frame whose id is JSON [null]. *)
Definition null_id_frame : json :=
  JObject [("jsonrpc", JString "2.0"); ("id", JNull);
           ("error", JObject [("code", JNumber (NNegInt (-32700)))])].

(** A response-shaped frame with a string id. *)
Definition string_id_frame : json :=
  JObject [("jsonrpc", JString "2.0"); ("id", JString "1"); ("result", JNull)].

Definition replies_3_1_2 : list event :=
  [EFrame (response_frame 3 (JString "three"));
   EFrame (response_frame 1 (JString "one"));
   EFrame (response_frame 2 (JString "two"))].


Definition multibyte_body : list Z :=
  [123; 34; 195; 169; 226; 130; 172; 240; 159; 152; 128; 34; 125].

(** A machine with no JDT LS installation anywhere. *)
Definition env_without_jdtls : env :=
  {| getenv := fun _ => None;
     path_exists := fun _ => false;
     read_dir := fun _ => Err "not found";
     create_dir_all := fun _ => None;
     spawn := fun _ _ => Err "No such file or directory (os error 2)";
     process_id := 7;
     target_os := "linux";
     child_stdin_error := None;
     initialize_reply := RecvClosed |}.

Definition jdtls_path (p : string) : bool :=
  String.eqb p "/opt/jdtls" || String.eqb p "/opt/jdtls/plugins"
  || String.eqb p "/opt/jdtls/config_linux".

Definition launcher_listing (p : string) : result (list string) string :=
  if String.eqb p "/opt/jdtls/plugins"
  then Ok ["org.eclipse.equinox.launcher_1.6.900.jar"]
  else Err "not found".

(** A reply to [initialize] with id 1 and a result. *)
Definition initialize_ok : LspMessage :=
  {| msg_id := Some (JNumber (NPosInt 1)); msg_method := None;
     msg_result := Some (JObject [("capabilities", JObject [])]);
     msg_error := None; msg_params := None |}.

(** JDT LS installed under [JDTLS_HOME], no [JAVA_HOME], and no [java] on
    [PATH]: spawning [java] fails with [ENOENT]. *)
Definition env_without_java : env :=
  {| getenv := fun k => if String.eqb k "JDTLS_HOME" then Some "/opt/jdtls" else None;
     path_exists := jdtls_path;
     read_dir := launcher_listing;
     create_dir_all := fun _ => None;
     spawn := fun _ _ => Err "No such file or directory (os error 2)";
     process_id := 7;
     target_os := "linux";
     child_stdin_error := None;
     initialize_reply := RecvOk initialize_ok |}.

(** The same machine with [java] on [PATH]: the server starts and answers
    [initialize]. *)
Definition env_working : env :=
  {| getenv := fun k => if String.eqb k "JDTLS_HOME" then Some "/opt/jdtls" else None;
     path_exists := jdtls_path;
     read_dir := launcher_listing;
     create_dir_all := fun _ => None;
     spawn := fun _ _ => Ok {| child_pid := 4242; child_has_stdin := true;
                               child_has_stdout := true |};
     process_id := 7;
     target_os := "linux";
     child_stdin_error := None;
     initialize_reply := RecvOk initialize_ok |}.

(** A manager holding a fresh transport whose writes fail with the given
    error, if any. *)
Definition running_manager (stdin_err : option string) : manager :=
  with_transport manager_new (transport_new stdin_err).

(** Replies and notification params as JDT LS sends them. *)
Definition completion_list : json :=
  JObject [("isIncomplete", JBool false);
           ("items", JArray [JObject [("label", JString "toString"); ("kind", JNumber (NPosInt 2))];
                             JObject [("kind", JNumber (NPosInt 6))];
                             JObject [("label", JString "length");
                                      ("textEdit", JObject [("newText", JString "length()")])]])].

Definition hover_reply : json :=
  JObject [("contents", JObject [("kind", JString "markdown"); ("value", JString "int x")])].

Definition signature_reply : json :=
  JObject [("signatures",
             JArray [JObject [("label", JString "max(int a, int b)");
                              ("parameters", JArray [JObject [("label", JString "int a")];
                                                     JObject [("label", JString "int b")]])]]);
           ("activeSignature", JNumber (NPosInt 0));
           ("activeParameter", JNumber (NPosInt 1))].

(* ================================================================== *)
(** * Proofs *)

(* ------------------------------------------------------------------ *)
(** ** Routing of inbound frames *)

Lemma route_reader_running v t : reader_running (route v t) = reader_running t.
Proof.
  unfold route. destruct (decode_message v) as [m|]; [|reflexivity].
  destruct (is_response m); [|reflexivity].
  destruct (msg_id m) as [[| | n | | |]|]; try reflexivity.
  destruct (as_i64 n) as [id|]; [|reflexivity].
  destruct (pending t !! id); reflexivity.
Qed.

Lemma run_app t tr1 tr2 : run t (tr1 ++ tr2) = run (run t tr1) tr2.
Proof. unfold run. apply fold_left_app. Qed.

Lemma run_reader_running t tr :
  reader_running (run t tr) = reader_running t && negb (existsb is_exit tr).
Proof.
  revert t. induction tr as [|e tr IH]; intros t; simpl.
  - destruct (reader_running t); reflexivity.
  - rewrite IH. destruct e; simpl; try reflexivity.
    + destruct (reader_running t) eqn:R; [rewrite route_reader_running, R|rewrite R]; reflexivity.
    + destruct (reader_running t), (existsb is_exit tr); reflexivity.
Qed.

(** Routing touches the entry of [k] only through a frame answering [k]. *)
Lemma route_other k v t m :
  decode_message v = Some m -> answers k m = false ->
  pending (route v t) !! k = pending t !! k /\
  delivered (route v t) !! k = delivered t !! k.
Proof.
  intros Hd Ha. unfold route. rewrite Hd.
  unfold answers in Ha. destruct (is_response m); simpl in Ha; [|split; reflexivity].
  destruct (msg_id m) as [[| | n | | |]|]; try (split; reflexivity).
  destruct (as_i64 n) as [id|]; [|split; reflexivity].
  destruct (pending t !! id); [|split; reflexivity].
  assert (id <> k) by (intros ->; rewrite bool_decide_eq_true_2 in Ha; congruence).
  simpl. rewrite lookup_delete_ne, lookup_insert_ne by congruence. split; reflexivity.
Qed.

Lemma route_answers k v t m :
  decode_message v = Some m -> answers k m = true -> pending t !! k = Some tt ->
  route v t = deliver k m t.
Proof.
  intros Hd Ha Hp. unfold route. rewrite Hd.
  unfold answers in Ha. apply andb_prop in Ha as [Hr Ha]. rewrite Hr.
  destruct (msg_id m) as [[| | n | | |]|]; try discriminate.
  destruct (as_i64 n) as [id|]; [|discriminate].
  apply bool_decide_eq_true_1 in Ha. subst id. rewrite Hp. reflexivity.
Qed.

Lemma route_not_pending k v t :
  pending t !! k = None ->
  pending (route v t) !! k = None /\ delivered (route v t) !! k = delivered t !! k.
Proof.
  intros Hp. unfold route.
  destruct (decode_message v) as [m|]; [|split; [exact Hp|reflexivity]].
  destruct (is_response m); [|split; [exact Hp|reflexivity]].
  destruct (msg_id m) as [[| | n | | |]|]; try (split; [exact Hp|reflexivity]).
  destruct (as_i64 n) as [id|]; [|split; [exact Hp|reflexivity]].
  destruct (pending t !! id) eqn:Hid; [|split; [exact Hp|reflexivity]].
  assert (id <> k) by (intros ->; congruence).
  simpl. rewrite lookup_delete_ne, lookup_insert_ne by congruence.
  split; [exact Hp|reflexivity].
Qed.

(** An entry that is not pending stays so, and its delivery slot is left
    alone, while no caller inserts [k]. *)
Lemma run_not_pending k tr t :
  ~ In (EInsert k) tr -> pending t !! k = None ->
  pending (run t tr) !! k = None /\ delivered (run t tr) !! k = delivered t !! k.
Proof.
  revert t. induction tr as [|e tr IH]; intros t Hin Hp; [split; [exact Hp|reflexivity]|].
  simpl. assert (Hin' : ~ In (EInsert k) tr) by (intros H; apply Hin; right; exact H).
  assert (Hstep : pending (step t e) !! k = None /\
                  delivered (step t e) !! k = delivered t !! k).
  { destruct e as [|j|v|]; simpl.
    - split; [exact Hp|reflexivity].
    - assert (j <> k) by (intros ->; apply Hin; left; reflexivity).
      rewrite lookup_insert_ne by congruence. split; [exact Hp|reflexivity].
    - destruct (reader_running t); [apply route_not_pending; exact Hp|].
      split; [exact Hp|reflexivity].
    - split; [exact Hp|reflexivity]. }
  destruct Hstep as [H1 H2]. destruct (IH (step t e) Hin' H1) as [H3 H4].
  split; [exact H3|]. rewrite H4. exact H2.
Qed.

(** Once [k] is pending and undelivered, its receiver gets the first frame
    answering [k] that the reader handles, if any. *)
Lemma run_pending k tr t :
  ~ In (EInsert k) tr -> pending t !! k = Some tt -> delivered t !! k = None ->
  delivered (run t tr) !! k =
    if reader_running t then first_answer k tr else None.
Proof.
  revert t. induction tr as [|e tr IH]; intros t Hin Hp Hd.
  - simpl. destruct (reader_running t); exact Hd.
  - assert (Hin' : ~ In (EInsert k) tr) by (intros H; apply Hin; right; exact H).
    simpl. destruct e as [|j|v|].
    + rewrite IH; [reflexivity|exact Hin'|exact Hp|exact Hd].
    + assert (j <> k) by (intros ->; apply Hin; left; reflexivity).
      rewrite IH; [reflexivity|exact Hin'| |exact Hd]. simpl.
      rewrite lookup_insert_ne by congruence. exact Hp.
    + simpl. destruct (reader_running t) eqn:R.
      * destruct (decode_message v) as [m|] eqn:Hdec.
        -- destruct (answers k m) eqn:Ha.
           ++ rewrite (route_answers k v t m Hdec Ha Hp).
              destruct (run_not_pending k tr (deliver k m t) Hin') as [_ H2];
                [simpl; apply lookup_delete_eq|].
              rewrite H2. simpl. apply lookup_insert_eq.
           ++ rewrite IH; [rewrite route_reader_running, R; reflexivity|exact Hin'| |].
              ** rewrite (proj1 (route_other k v t m Hdec Ha)). exact Hp.
              ** rewrite (proj2 (route_other k v t m Hdec Ha)). exact Hd.
        -- assert (Hr : route v t = t) by (unfold route; rewrite Hdec; reflexivity).
           rewrite Hr, IH, R by assumption. reflexivity.
      * rewrite IH, R by assumption. reflexivity.
    + rewrite IH by assumption. simpl. destruct (reader_running t); reflexivity.
Qed.

Lemma transport_new_not_pending err k tr :
  ~ In (EInsert k) tr ->
  pending (run (transport_new err) tr) !! k = None /\
  delivered (run (transport_new err) tr) !! k = None.
Proof.
  intros Hin. apply (run_not_pending k tr (transport_new err) Hin). reflexivity.
Qed.

(** Claim C1. For any interleaving of callers and inbound frames on one
    transport, the caller that inserted its pending entry under id [k]
    (and no other caller used [k]) receives exactly the first frame
    answering [k] that the reader handles after that insertion — provided
    the reader has not exited — and its call resolves with that frame's
    result or error. Order relative to other requests and frames plays no
    role. *)
Theorem request_resolves_with_own_response err tr1 k tr2 :
  ~ In (EInsert k) tr1 -> ~ In (EInsert k) tr2 ->
  let t := run (transport_new err) (tr1 ++ EInsert k :: tr2) in
  let answer := if existsb is_exit tr1 then None else first_answer k tr2 in
  delivered t !! k = answer /\
  call_outcome t k = option_map (fun m => finish_request (RecvOk m)) answer.
Proof.
  intros H1 H2 t answer.
  assert (Hd : delivered t !! k = answer).
  { subst t answer. rewrite run_app. simpl.
    destruct (transport_new_not_pending err k tr1 H1) as [_ Hd1].
    rewrite run_pending; [|exact H2|apply lookup_insert_eq|exact Hd1].
    simpl. rewrite run_reader_running. simpl.
    destruct (existsb is_exit tr1); reflexivity. }
  split; [exact Hd|]. unfold call_outcome. rewrite Hd. reflexivity.
Qed.

Lemma request_resolves_with_own_response_witness :
  ~ In (EInsert 3) three_callers /\ ~ In (EInsert 3) replies_3_1_2 /\
  call_outcome (run (transport_new None) (three_callers ++ EInsert 3 :: replies_3_1_2)) 3
    = Some (Ok (JString "three")).
Proof.
  assert (H1 : ~ In (EInsert 3) three_callers)
    by (simpl; intuition congruence).
  assert (H2 : ~ In (EInsert 3) replies_3_1_2)
    by (simpl; intuition congruence).
  split; [exact H1|]. split; [exact H2|].
  destruct (request_resolves_with_own_response None three_callers 3 replies_3_1_2 H1 H2)
    as [_ H].
  rewrite H. vm_compute. reflexivity.
Defined.

(* ------------------------------------------------------------------ *)
(** ** Request ids *)

Lemma wrap_i64_add a b : wrap_i64 (wrap_i64 a + b) = wrap_i64 (a + b).
Proof.
  unfold wrap_i64.
  replace ((a + 2 ^ 63) mod 2 ^ 64 - 2 ^ 63 + b + 2 ^ 63)
    with ((a + 2 ^ 63) mod 2 ^ 64 + b) by ring.
  rewrite Z.add_mod_idemp_l by lia.
  f_equal. f_equal. ring.
Qed.

Lemma wrap_i64_small z : i64_min <= z <= i64_max -> wrap_i64 z = z.
Proof.
  unfold wrap_i64, i64_min, i64_max. intros H.
  rewrite Z.mod_small by lia. ring.
Qed.

Lemma step_next_id t e :
  next_id (step t e) = match e with EAlloc => wrap_i64 (next_id t + 1) | _ => next_id t end.
Proof.
  destruct e as [|k|v|]; simpl; try reflexivity.
  destruct (reader_running t); [|reflexivity].
  unfold route. destruct (decode_message v) as [m|]; [|reflexivity].
  destruct (is_response m); [|reflexivity].
  destruct (msg_id m) as [[| | n | | |]|]; try reflexivity.
  destruct (as_i64 n) as [id|]; [|reflexivity].
  destruct (pending t !! id); reflexivity.
Qed.

(** The ids handed out from a state whose counter holds [n] are the
    wrapped values of [n], [n + 1], [n + 2], ... *)
Lemma assigned_ids_from t tr :
  wrap_i64 (next_id t) = next_id t ->
  assigned_ids t tr =
    map (fun i => wrap_i64 (next_id t + Z.of_nat i)) (seq 0 (count_allocs tr)).
Proof.
  revert t. induction tr as [|e tr IH]; intros t Hw; [reflexivity|].
  change (assigned_ids t (e :: tr)) with
    ((match e with EAlloc => [next_id t] | _ => [] end) ++ assigned_ids (step t e) tr).
  assert (Hw' : wrap_i64 (next_id (step t e)) = next_id (step t e)).
  { rewrite step_next_id. destruct e; try exact Hw.
    pose proof (wrap_i64_add (next_id t + 1) 0) as W. rewrite !Z.add_0_r in W. exact W. }
  rewrite (IH _ Hw'), step_next_id. unfold count_allocs. simpl.
  destruct e as [|k|v|]; try reflexivity.
  simpl. rewrite Z.add_0_r, Hw. f_equal.
  rewrite <- seq_shift, map_map. apply map_ext. intros i.
  rewrite wrap_i64_add. f_equal. lia.
Qed.

Lemma assigned_ids_new err tr :
  assigned_ids (transport_new err) tr =
    map (fun i => wrap_i64 (1 + Z.of_nat i)) (seq 0 (count_allocs tr)).
Proof. apply assigned_ids_from. reflexivity. Qed.

Lemma count_allocs_repeat n : count_allocs (repeat EAlloc n) = n.
Proof.
  unfold count_allocs. induction n as [|n IH]; [reflexivity|]. simpl. rewrite IH. reflexivity.
Qed.

Lemma nth_map_seq0 {A} (f : nat -> A) n i d :
  (i < n)%nat -> nth i (map f (seq 0 n)) d = f i.
Proof.
  intros Hi. rewrite nth_indep with (d' := f 0%nat)
    by (rewrite length_map, length_seq; exact Hi).
  rewrite map_nth, seq_nth by exact Hi. reflexivity.
Qed.

(** Claim C3 (as amended). The ids a transport hands out are the [i64]
    wrap-arounds of 1, 2, 3, ... in request order; in particular, as long
    as at most [2^63 - 1] requests have been sent, they are exactly
    1, 2, ..., n: starting at 1, strictly increasing, never reused. *)
Theorem request_ids_sequential err tr :
  assigned_ids (transport_new err) tr =
    map (fun i => wrap_i64 (1 + Z.of_nat i)) (seq 0 (count_allocs tr)) /\
  (Z.of_nat (count_allocs tr) <= i64_max ->
   assigned_ids (transport_new err) tr =
     map (fun i => 1 + Z.of_nat i) (seq 0 (count_allocs tr))).
Proof.
  split; [apply assigned_ids_new|]. intros Hc.
  rewrite assigned_ids_new. apply map_ext_in. intros i Hi.
  apply in_seq in Hi. apply wrap_i64_small. unfold i64_min. lia.
Qed.

Lemma request_ids_sequential_witness :
  Z.of_nat (count_allocs three_callers) <= i64_max /\
  assigned_ids (transport_new None) three_callers = [1; 2; 3].
Proof.
  assert (H : Z.of_nat (count_allocs three_callers) <= i64_max)
    by (vm_compute; discriminate).
  split; [exact H|].
  rewrite (proj2 (request_ids_sequential None three_callers) H). reflexivity.
Defined.

(** Claim C3, refuted: the counter wraps. After [2^63 - 1] requests (ids
    1, ..., 2^63 - 1) the next request gets [-2^63], which is not greater
    than the first id 1. *)
Lemma request_ids_wrap :
  let tr := repeat EAlloc (Z.to_nat (2 ^ 63)) in
  hd 0 (assigned_ids (transport_new None) tr) = 1 /\
  nth (Z.to_nat (2 ^ 63 - 1)) (assigned_ids (transport_new None) tr) 0 = - 2 ^ 63.
Proof.
  intros tr. rewrite assigned_ids_new. subst tr. rewrite count_allocs_repeat.
  assert (Hn : (0 < Z.to_nat (2 ^ 63))%nat) by lia.
  split.
  - destruct (Z.to_nat (2 ^ 63)) as [|n] eqn:E; [lia|]. reflexivity.
  - assert (Hi : (Z.to_nat (2 ^ 63 - 1) < Z.to_nat (2 ^ 63))%nat) by lia.
    rewrite nth_map_seq0 by exact Hi.
    rewrite Z2Nat.id by lia. vm_compute. reflexivity.
Qed.

(* ------------------------------------------------------------------ *)
(** ** Notifications *)

Lemma route_notifications v t :
  notifications (route v t) =
    notifications t ++
    match decode_message v with
    | Some m => if is_response m then [] else [m]
    | None => []
    end.
Proof.
  unfold route. destruct (decode_message v) as [m|]; [|symmetry; apply app_nil_r].
  destruct (is_response m); [|reflexivity].
  rewrite app_nil_r.
  destruct (msg_id m) as [[| | n | | |]|]; try reflexivity.
  destruct (as_i64 n) as [id|]; [|reflexivity].
  destruct (pending t !! id); reflexivity.
Qed.

Lemma notification_not_response m :
  msg_id m = None -> is_response m = false.
Proof. intros H. unfold is_response. rewrite H. reflexivity. Qed.

(** Claim C4. While the reader runs, the frames it reads push on the
    notification channel exactly the decoded non-response messages, in read
    order; a frame with a method and no id is one of them, and handling it
    leaves the pending table and every caller's receiver untouched. *)
Theorem notifications_forwarded_in_order t vs :
  reader_running t = true ->
  notifications (run t (map EFrame vs)) = notifications t ++ forwarded vs /\
  (forall v m, decode_message v = Some m -> msg_id m = None -> msg_method m <> None ->
     pending (step t (EFrame v)) = pending t /\
     delivered (step t (EFrame v)) = delivered t /\
     notifications (step t (EFrame v)) = notifications t ++ [m]).
Proof.
  intros R. split.
  - revert t R. induction vs as [|v vs IH]; intros t R.
    + simpl. symmetry. apply app_nil_r.
    + simpl. rewrite R, IH by (rewrite route_reader_running; exact R).
      rewrite route_notifications, <- app_assoc. f_equal.
      destruct (decode_message v) as [m|]; [|reflexivity].
      destruct (is_response m); reflexivity.
  - intros v m Hd Hid _. simpl. rewrite R.
    pose proof (route_notifications v t) as Hn. rewrite Hd in Hn.
    rewrite notification_not_response in Hn by exact Hid.
    unfold route in *. rewrite Hd in *.
    rewrite notification_not_response in * by exact Hid.
    split; [reflexivity|]. split; [reflexivity|]. exact Hn.
Qed.

Lemma notifications_forwarded_in_order_witness :
  reader_running (transport_new None) = true /\
  map msg_method (notifications (run (transport_new None) (map EFrame mixed_frames))) =
    [Some "window/logMessage"; Some "client/registerCapability";
     Some "textDocument/publishDiagnostics"].
Proof.
  assert (R : reader_running (transport_new None) = true) by reflexivity.
  split; [exact R|].
  rewrite (proj1 (notifications_forwarded_in_order (transport_new None) mixed_frames R)).
  vm_compute. reflexivity.
Defined.

(* ------------------------------------------------------------------ *)
(** ** Frames that answer nobody *)

(** Claim C10 (as amended). A frame whose decoded id is present (not
    [null]), with no method, and whose id is not an [i64] number with a
    pending entry, changes nothing: no caller gets it and it is not pushed
    on the notification channel. A frame with no method whose id is absent
    or [null] (which decodes to no id) is pushed on the notification
    channel. *)
Theorem unmatched_response_dropped t v m :
  decode_message v = Some m -> msg_method m = None ->
  (forall x, msg_id m = Some x ->
     (forall n k, x = JNumber n -> as_i64 n = Some k -> pending t !! k = None) ->
     route v t = t) /\
  (msg_id m = None -> route v t =
     {| next_id := next_id t; pending := pending t; delivered := delivered t;
        notifications := notifications t ++ [m]; written := written t;
        reader_running := reader_running t; stdin_error := stdin_error t |}).
Proof.
  intros Hd Hm. split.
  - intros x Hx Hnp. unfold route. rewrite Hd.
    unfold is_response. rewrite Hx, Hm. simpl.
    destruct x as [| | n | | |]; try reflexivity.
    destruct (as_i64 n) as [k|] eqn:Hk; [|reflexivity].
    rewrite (Hnp n k eq_refl Hk). reflexivity.
  - intros Hx. unfold route. rewrite Hd.
    unfold is_response. rewrite Hx. reflexivity.
Qed.

Lemma unmatched_response_dropped_witness :
  decode_message string_id_frame = Some {| msg_id := Some (JString "1"); msg_method := None;
    msg_result := None; msg_error := None; msg_params := None |} /\
  route string_id_frame (run (transport_new None) [EAlloc; EInsert 1])
    = run (transport_new None) [EAlloc; EInsert 1].
Proof.
  assert (Hd : decode_message string_id_frame =
    Some {| msg_id := Some (JString "1"); msg_method := None;
            msg_result := None; msg_error := None; msg_params := None |})
    by reflexivity.
  split; [exact Hd|].
  apply (proj1 (unmatched_response_dropped _ _ _ Hd eq_refl) (JString "1") eq_refl).
  intros n k Hn. discriminate Hn.
Defined.

(** Claim C10, refuted: a frame with an id and no method whose id is JSON
    [null] is pushed on the notification channel. *)
Lemma null_id_frame_forwarded :
  notifications (step (transport_new None) (EFrame null_id_frame)) <> [].
Proof. vm_compute. discriminate. Qed.

(* ------------------------------------------------------------------ *)
(** ** Request outcomes *)

(** After the reader has returned, nothing reaches a waiting caller, and
    its sender stays registered in the pending table. *)
Lemma run_reader_stopped k tr t :
  reader_running t = false -> ~ In (EInsert k) tr ->
  pending (run t tr) !! k = pending t !! k /\
  delivered (run t tr) !! k = delivered t !! k.
Proof.
  revert t. induction tr as [|e tr IH]; intros t R Hin; [split; reflexivity|].
  assert (Hin' : ~ In (EInsert k) tr) by (intros H; apply Hin; right; exact H).
  simpl. destruct e as [|j|v|].
  - exact (IH (step t EAlloc) R Hin').
  - assert (j <> k) by (intros ->; apply Hin; left; reflexivity).
    rewrite (proj1 (IH (step t (EInsert j)) R Hin')),
            (proj2 (IH (step t (EInsert j)) R Hin')). simpl.
    rewrite lookup_insert_ne by congruence. split; reflexivity.
  - simpl. rewrite R. exact (IH t R Hin').
  - exact (IH (step t EReaderExit) eq_refl Hin').
Qed.

(** [stop] touches no pending entry or delivered message other than
    those of its own [shutdown] request, and does not stop the reader. *)
Lemma stop_keeps_others reply m t k :
  m_transport m = Some t -> k <> next_id t ->
  exists t', snd (stop reply m) = Some t' /\
    pending t' !! k = pending t !! k /\ delivered t' !! k = delivered t !! k /\
    reader_running t' = reader_running t.
Proof.
  intros Ht Hk. unfold stop. rewrite Ht.
  unfold request_send, fetch_add_id, insert_pending, send_raw, notify.
  cbn [stdin_error next_id].
  destruct (stdin_error t) as [err|] eqn:He.
  - cbn. rewrite ?He. eexists. split; [reflexivity|]. cbn.
    rewrite lookup_insert_ne by congruence. repeat split.
  - destruct reply as [msg|]; cbn; rewrite ?He; cbn;
      eexists; (split; [reflexivity|]); cbn.
    + rewrite lookup_delete_ne, lookup_insert_ne, lookup_insert_ne by congruence.
      repeat split.
    + rewrite lookup_insert_ne by congruence. repeat split.
Qed.

(** Claim C5 (as amended). [request] returns the [result] (or [null] when
    absent) of a matching response without [error], and
    [Err("LSP error: " ++ error)] for a response with an [error]; a
    dropped sender gives [Err("LSP response channel closed")]. But the
    reader exiting (the subprocess closing its stdout) drops no sender: a
    caller still waiting keeps its pending entry and receives nothing, so
    it is neither answered nor failed. Nor does [stop]: the transport it
    leaves (which the waiting caller still holds) shows every other caller
    exactly what it showed before, and a caller still waiting when the
    session stops receives nothing once the reader has returned, whatever
    frames come after. *)
Theorem request_outcomes :
  (forall m, msg_error m = None ->
     finish_request (RecvOk m) =
       Ok (match msg_result m with Some v => v | None => JNull end)) /\
  (forall m e, msg_error m = Some e ->
     finish_request (RecvOk m) = Err ("LSP error: " ++ json_to_string e)%string) /\
  finish_request RecvClosed = Err "LSP response channel closed" /\
  (forall t tr k,
     pending t !! k = Some tt -> delivered t !! k = None ->
     reader_running t = false -> ~ In (EInsert k) tr ->
     receiver_view (run t tr) k = None) /\
  (forall reply m t k,
     m_transport m = Some t -> k <> next_id t ->
     exists t', snd (stop reply m) = Some t' /\ receiver_view t' k = receiver_view t k) /\
  (forall reply m t k tr,
     m_transport m = Some t -> k <> next_id t ->
     pending t !! k = Some tt -> delivered t !! k = None -> ~ In (EInsert k) tr ->
     exists t', snd (stop reply m) = Some t' /\
       receiver_view (run t' (EReaderExit :: tr)) k = None).
Proof.
  assert (Hexit : forall t tr k,
     pending t !! k = Some tt -> delivered t !! k = None ->
     reader_running t = false -> ~ In (EInsert k) tr ->
     receiver_view (run t tr) k = None).
  { intros t tr k Hp Hd R Hin. destruct (run_reader_stopped k tr t R Hin) as [H1 H2].
    unfold receiver_view. rewrite H2, Hd, H1, Hp. reflexivity. }
  split; [intros m H; simpl; rewrite H; reflexivity|].
  split; [intros m e H; simpl; rewrite H; reflexivity|].
  split; [reflexivity|].
  split; [exact Hexit|].
  split.
  - intros reply m t k Ht Hk.
    destruct (stop_keeps_others reply m t k Ht Hk) as (t' & Hs & Hp & Hd & _).
    exists t'. split; [exact Hs|]. unfold receiver_view. rewrite Hd, Hp. reflexivity.
  - intros reply m t k tr Ht Hk Hp Hd Hin.
    destruct (stop_keeps_others reply m t k Ht Hk) as (t' & Hs & Hp' & Hd' & _).
    exists t'. split; [exact Hs|].
    apply (Hexit (step t' EReaderExit) tr k); simpl; congruence.
Qed.

Lemma request_outcomes_witness :
  let t := run (transport_new None) [EAlloc; EInsert 1; EReaderExit] in
  pending t !! 1 = Some tt /\ delivered t !! 1 = None /\ reader_running t = false /\
  ~ In (EInsert 1) [EFrame (response_frame 1 JNull)] /\
  receiver_view (run t [EFrame (response_frame 1 JNull)]) 1 = None /\
  let m := with_transport manager_new (run (transport_new None) [EAlloc; EInsert 1]) in
  exists t', snd (stop RecvClosed m) = Some t' /\
    receiver_view (run t' [EReaderExit; EFrame (response_frame 2 JNull)]) 1 = None.
Proof.
  intros t.
  assert (Hp : pending t !! 1 = Some tt) by reflexivity.
  assert (Hd : delivered t !! 1 = None) by reflexivity.
  assert (R : reader_running t = false) by reflexivity.
  assert (Hin : ~ In (EInsert 1) [EFrame (response_frame 1 JNull)])
    by (simpl; intuition congruence).
  destruct request_outcomes as (_ & _ & _ & H4 & _ & H6).
  split; [exact Hp|]. split; [exact Hd|]. split; [exact R|]. split; [exact Hin|].
  split; [exact (H4 t _ 1 Hp Hd R Hin)|].
  intros m.
  apply (H6 RecvClosed m (run (transport_new None) [EAlloc; EInsert 1]) 1
           [EFrame (response_frame 2 JNull)]);
    [reflexivity | vm_compute; discriminate | reflexivity | reflexivity
    | simpl; intuition congruence].
Defined.

(** Claim C5, refuted: the caller of id 1 is still waiting after the reader
    has returned (end of stream); its receiver has neither a message nor a
    [RecvError], so the call does not fail with "connection closed". *)
Lemma request_not_failed_on_reader_exit :
  receiver_view (run (transport_new None) [EAlloc; EInsert 1; EReaderExit]) 1 = None.
Proof. vm_compute. reflexivity. Qed.

(* ------------------------------------------------------------------ *)
(** ** Framing round trip *)

Lemma parse_digits_app acc l1 l2 :
  parse_digits acc (l1 ++ l2) =
    match parse_digits acc l1 with Some a => parse_digits a l2 | None => None end.
Proof.
  revert acc. induction l1 as [|c l1 IH]; intros acc; [reflexivity|].
  simpl. destruct ((48 <=? c) && (c <=? 57)); [|reflexivity].
  destruct (acc * 10 + (c - 48) <=? usize_max); [apply IH|reflexivity].
Qed.

Lemma digits_rev_range f n :
  0 <= n -> Forall (fun d => 0 <= d < 10) (digits_rev f n).
Proof.
  revert n. induction f as [|f IH]; intros n Hn; simpl; [constructor|].
  constructor; [apply Z.mod_pos_bound; lia|].
  destruct (n <? 10); [constructor|]. apply IH. apply Z.div_pos; lia.
Qed.

Lemma digits_rev_nonempty f n : (0 < f)%nat -> digits_rev f n <> [].
Proof. destruct f; [lia|]. simpl. discriminate. Qed.

Lemma parse_digits_rev f n :
  (0 < f)%nat -> 0 <= n <= usize_max -> n < 10 ^ Z.of_nat f ->
  parse_digits 0 (map (fun d => 48 + d) (rev (digits_rev f n))) = Some n.
Proof.
  revert n. induction f as [|f IH]; intros n Hf Hn Hlt; [lia|].
  simpl. rewrite map_app, parse_digits_app.
  assert (Hm : 0 <= n mod 10 < 10) by (apply Z.mod_pos_bound; lia).
  destruct (n <? 10) eqn:Hs.
  - apply Z.ltb_lt in Hs. rewrite Z.mod_small in * by lia. simpl.
    replace ((48 <=? 48 + n) && (48 + n <=? 57)) with true
      by (symmetry; apply andb_true_intro; split; apply Z.leb_le; lia).
    replace (0 * 10 + (48 + n - 48)) with n by ring.
    replace (n <=? usize_max) with true by (symmetry; apply Z.leb_le; lia).
    reflexivity.
  - apply Z.ltb_ge in Hs.
    assert (Hf' : (0 < f)%nat).
    { destruct f; [|lia]. simpl in Hlt. lia. }
    rewrite IH; [|exact Hf'| |].
    + simpl.
      replace ((48 <=? 48 + n mod 10) && (48 + n mod 10 <=? 57)) with true
        by (symmetry; apply andb_true_intro; split; apply Z.leb_le; lia).
      replace (n / 10 * 10 + (48 + n mod 10 - 48)) with n
        by (pose proof (Z.div_mod n 10); lia).
      replace (n <=? usize_max) with true by (symmetry; apply Z.leb_le; lia).
      reflexivity.
    + split; [apply Z.div_pos; lia|]. pose proof (Z.div_le_upper_bound n 10 n). lia.
    + apply Z.div_lt_upper_bound; [lia|].
      rewrite Nat2Z.inj_succ, Z.pow_succ_r in Hlt by lia. lia.
Qed.


Lemma ascii_digits_range n :
  0 <= n -> Forall (fun c => 48 <= c <= 57) (ascii_digits n).
Proof.
  intros Hn. unfold ascii_digits, decimal_digits. apply List.Forall_map.
  apply List.Forall_rev.
  apply (List.Forall_impl (P := fun d => 0 <= d < 10)).
  - intros d Hd. lia.
  - apply digits_rev_range. exact Hn.
Qed.

Lemma ascii_digits_parse n :
  0 <= n <= usize_max -> parse_digits 0 (ascii_digits n) = Some n.
Proof.
  intros Hn. apply parse_digits_rev; [lia|exact Hn|].
  unfold usize_max in Hn. simpl. lia.
Qed.

Lemma ascii_digits_nonempty n : ascii_digits n <> [].
Proof.
  unfold ascii_digits, decimal_digits. intros H.
  apply map_eq_nil in H. apply (f_equal (@rev Z)) in H. rewrite rev_involutive in H.
  exact (digits_rev_nonempty 20 n ltac:(lia) H).
Qed.

Lemma split_line_app l r :
  Forall (fun b => b <> 10) l -> split_line (l ++ 10 :: r) = (l ++ [10], r).
Proof.
  induction 1 as [|b l Hb _ IH]; [reflexivity|].
  simpl. rewrite IH. destruct (b =? 10) eqn:E; [apply Z.eqb_eq in E; congruence|].
  reflexivity.
Qed.

Lemma utf8_decode_ascii l :
  Forall (fun b => 0 <= b < 128) l -> utf8_decode l = Some l.
Proof.
  induction 1 as [|b l Hb _ IH]; [reflexivity|].
  simpl. replace (b <? 128) with true by (symmetry; apply Z.ltb_lt; lia).
  rewrite IH. reflexivity.
Qed.

Lemma strip_prefix_app p l : strip_prefix p (p ++ l) = Some l.
Proof.
  induction p as [|x p IH]; [reflexivity|]. simpl. rewrite Z.eqb_refl. exact IH.
Qed.

Lemma drop_ws_digit c l : 48 <= c <= 57 -> drop_ws (c :: l) = c :: l.
Proof.
  intros Hc. simpl. unfold is_whitespace.
  replace ((9 <=? c) && (c <=? 13)) with false
    by (symmetry; apply andb_false_iff; right; apply Z.leb_gt; lia).
  repeat match goal with
         | |- context [c =? ?k] => replace (c =? k) with false
             by (symmetry; apply Z.eqb_neq; lia)
         | |- context [(?a <=? c) && (c <=? ?b)] => replace ((a <=? c) && (c <=? b)) with false
             by (symmetry; apply andb_false_iff; left; apply Z.leb_gt; lia)
         end.
  reflexivity.
Qed.

Lemma read_line_ascii l r :
  Forall (fun b => 0 <= b < 128 /\ b <> 10) l ->
  read_line (l ++ 10 :: r) = Line (l ++ [10]) r.
Proof.
  intros Hl.
  assert (Hs : split_line (l ++ 10 :: r) = (l ++ [10], r)).
  { apply split_line_app. eapply List.Forall_impl; [|exact Hl]. simpl. tauto. }
  assert (Hu : utf8_decode (l ++ [10]) = Some (l ++ [10])).
  { apply utf8_decode_ascii. apply List.Forall_app. split; [|repeat constructor; lia].
    eapply List.Forall_impl; [|exact Hl]. simpl. tauto. }
  unfold read_line. rewrite Hs, Hu. destruct l; reflexivity.
Qed.

Lemma read_headers_line f cl s line rest :
  read_line s = Line line rest ->
  read_headers (S f) cl s =
    match trim line with
    | [] => Some (cl, rest)
    | trimmed =>
        match strip_prefix content_length_prefix trimmed with
        | Some v => read_headers f (parse_usize v) rest
        | None => read_headers f cl rest
        end
    end.
Proof. intros H. simpl. rewrite H. reflexivity. Qed.

Lemma parse_usize_digit c l :
  48 <= c <= 57 -> parse_usize (c :: l) = parse_digits 0 (c :: l).
Proof.
  intros Hc. unfold parse_usize.
  replace (c =? 43) with false by (symmetry; apply Z.eqb_neq; lia).
  replace (c =? 45) with false by (symmetry; apply Z.eqb_neq; lia).
  reflexivity.
Qed.

Lemma content_length_prefix_cons :
  exists tl, content_length_prefix = 67 :: tl.
Proof. eexists. reflexivity. Qed.

Lemma content_length_prefix_ascii :
  Forall (fun b => 0 <= b < 128 /\ b <> 10) content_length_prefix.
Proof. vm_compute. repeat constructor; discriminate. Qed.

(** The trimmed header line is the header without its line end. *)
Lemma trim_header n :
  0 <= n ->
  trim (content_length_prefix ++ ascii_digits n ++ [13; 10])
    = content_length_prefix ++ ascii_digits n.
Proof.
  intros Hn. destruct content_length_prefix_cons as [tl Htl].
  pose proof (ascii_digits_range n Hn) as Hr.
  pose proof (ascii_digits_nonempty n) as Hne.
  unfold trim. rewrite Htl, <- !app_comm_cons.
  change (drop_ws (67 :: ?x)) with (67 :: x).
  replace (rev (67 :: tl ++ ascii_digits n ++ [13; 10]))
    with (10 :: 13 :: rev (ascii_digits n) ++ rev (67 :: tl))
    by (rewrite (app_comm_cons tl _ 67), !rev_app_distr; reflexivity).
  change (drop_ws (10 :: 13 :: ?x)) with (drop_ws x).
  destruct (rev (ascii_digits n)) as [|c l] eqn:E.
  - exfalso. apply Hne. apply (f_equal (@rev Z)) in E. rewrite rev_involutive in E. exact E.
  - assert (Hc : 48 <= c <= 57).
    { assert (Hin : In c (ascii_digits n)).
      { apply in_rev. rewrite E. left. reflexivity. }
      rewrite List.Forall_forall in Hr. exact (Hr c Hin). }
    rewrite <- app_comm_cons, drop_ws_digit by exact Hc.
    rewrite (app_comm_cons l _ c), <- E, rev_app_distr, !rev_involutive.
    reflexivity.
Qed.

(** Claim C2. The Content-Length framing written by [send_raw] is read
    back by the header/body logic of [reader_loop] as exactly the body
    bytes, whatever they are (multi-byte UTF-8 included: the length counts
    bytes), and the bytes after the frame are left for the next one. The
    hypothesis holds for every body Rust can hold in memory. *)
Theorem frame_roundtrip body rest :
  Z.of_nat (length body) <= usize_max ->
  read_frame (frame body ++ rest) = FrameBody body rest.
Proof.
  intros Hlen. set (n := Z.of_nat (length body)).
  assert (Hn : 0 <= n <= usize_max) by (subst n; lia).
  unfold read_frame, frame. fold n. fold (ascii_digits n).
  set (s := (content_length_prefix ++ ascii_digits n ++ [13; 10; 13; 10] ++ body) ++ rest).
  assert (Hs1 : s = (content_length_prefix ++ ascii_digits n ++ [13]) ++
                    10 :: (13 :: 10 :: body ++ rest))
    by (subst s; rewrite <- !app_assoc; reflexivity).
  assert (Hl1 : read_line s = Line ((content_length_prefix ++ ascii_digits n ++ [13]) ++ [10])
                                   (13 :: 10 :: body ++ rest)).
  { rewrite Hs1. apply read_line_ascii.
    apply List.Forall_app. split; [exact content_length_prefix_ascii|].
    apply List.Forall_app. split; [|repeat constructor; lia].
    eapply List.Forall_impl; [|apply ascii_digits_range; lia]. simpl. lia. }
  assert (Hl2 : read_line (13 :: 10 :: body ++ rest) = Line [13; 10] (body ++ rest)).
  { apply (read_line_ascii [13] (body ++ rest)). repeat constructor; lia. }
  assert (Hlen_s : exists f, length s = S (S f)).
  { exists (length s - 2)%nat. subst s. rewrite !length_app.
    destruct content_length_prefix_cons as [tl ->]. simpl. lia. }
  destruct Hlen_s as [f Hf]. rewrite Hf.
  rewrite (read_headers_line _ _ _ _ _ Hl1).
  replace ((content_length_prefix ++ ascii_digits n ++ [13]) ++ [10])
    with (content_length_prefix ++ ascii_digits n ++ [13; 10])
    by (rewrite <- !app_assoc; reflexivity).
  rewrite trim_header by lia.
  destruct content_length_prefix_cons as [tl Htl].
  rewrite Htl, <- app_comm_cons. cbv iota.
  rewrite (app_comm_cons tl _ 67), <- Htl, strip_prefix_app.
  destruct (ascii_digits n) as [|c ds] eqn:Ed; [exfalso; exact (ascii_digits_nonempty n Ed)|].
  pose proof (ascii_digits_range n ltac:(lia)) as Hr. rewrite Ed in Hr.
  apply List.Forall_cons_iff in Hr as [Hc _].
  rewrite parse_usize_digit by exact Hc. rewrite <- Ed, ascii_digits_parse by exact Hn.
  rewrite (read_headers_line _ _ _ _ _ Hl2).
  change (trim [13; 10]) with (@nil Z). cbv iota.
  replace (Z.of_nat (length (body ++ rest)) <? n) with false
    by (symmetry; apply Z.ltb_ge; unfold n; rewrite length_app; lia).
  replace (Z.to_nat n) with (length body) by (unfold n; lia).
  rewrite take_app_length, drop_app_length. reflexivity.
Qed.

Lemma frame_roundtrip_witness :
  Z.of_nat (length multibyte_body) <= usize_max /\
  read_frame (frame multibyte_body ++ []) = FrameBody multibyte_body [].
Proof.
  split.
  - apply Z.leb_le. reflexivity.
  - apply frame_roundtrip. apply Z.leb_le. reflexivity.
Defined.

(* ------------------------------------------------------------------ *)
(** ** The manager *)

(** [stop] builds its resulting manager from constants. *)
Lemma stop_manager reply m :
  snd (fst (stop reply m)) =
    {| m_transport := None; m_status := Stopped; m_project_root := None;
       m_notification_rx := None |}.
Proof. reflexivity. Qed.

(** Claim C6. Once [stop] has returned, which is [Ok], the status is
    [Stopped], no transport is held, and every feature operation fails at
    once with "LSP not running", leaving the manager as it is, so nothing
    is written to any subprocess. *)
Theorem stop_then_not_running reply m f :
  fst (fst (stop reply m)) = Ok tt /\
  status (snd (fst (stop reply m))) = Stopped /\
  m_transport (snd (fst (stop reply m))) = None /\
  feature_call (snd (fst (stop reply m))) f
    = (CallFailed "LSP not running", snd (fst (stop reply m))).
Proof.
  rewrite stop_manager. repeat split.
Qed.

Ltac destruct_matches :=
  repeat match goal with
         | |- context [match ?x with _ => _ end] =>
             let E := fresh "E" in destruct x eqn:E
         end.

(** Every run of [start] from a status other than [Running] and [Starting]
    either fails and leaves the manager as it was after the first two
    writes (status [Starting]), or succeeds with a transport, the status
    [Running] and the notification receiver of the spawned child. *)
Lemma start_shape e m root :
  m_status m <> Running -> m_status m <> Starting ->
  (exists err, start e m root =
     (Err err, {| m_transport := m_transport m; m_status := Starting;
                  m_project_root := Some root;
                  m_notification_rx := m_notification_rx m |})) \/
  (exists t pid, start e m root =
     (Ok tt, {| m_transport := Some t; m_status := Running;
                m_project_root := Some root;
                m_notification_rx := Some (NotificationRx pid) |})).
Proof.
  intros HR HS. unfold start. cbv zeta.
  destruct (m_status m) eqn:Hs; try congruence;
    destruct_matches;
    first [ left; eexists; reflexivity | right; do 2 eexists; reflexivity ].
Qed.

(** Claim C7. A [start] that begins (the status is neither [Running] nor
    [Starting]) and fails leaves the status at [Starting]; one that
    succeeds leaves it [Running]; no run of it leaves the status [Error]. *)
Theorem start_failure_leaves_starting e m root :
  m_status m <> Running -> m_status m <> Starting ->
  match start e m root with
  | (Err _, m') => m_status m' = Starting
  | (Ok _, m') => m_status m' = Running
  end /\
  forall reason, status (snd (start e m root)) <> Error reason.
Proof.
  intros HR HS.
  destruct (start_shape e m root HR HS) as [[err ->] | [t [pid ->]]];
    split; try reflexivity; intros reason; discriminate.
Qed.

Lemma start_failure_leaves_starting_witness :
  (match start env_without_jdtls manager_new "/home/u/proj" with
   | (Err _, m') => m_status m' = Starting
   | (Ok _, m') => m_status m' = Running
   end /\
   forall reason,
     status (snd (start env_without_jdtls manager_new "/home/u/proj")) <> Error reason).
Proof.
  apply start_failure_leaves_starting; discriminate.
Defined.

Ltac not_java_string :=
  let H := fresh in
  intro H; unfold java_not_found in H; simpl in H; discriminate H.

Lemma launcher_err_not_java e p err :
  find_launcher_jar e p = Err err -> err <> java_not_found.
Proof.
  unfold find_launcher_jar. destruct_matches; intros H; inversion H; subst;
    not_java_string.
Qed.

Lemma config_err_not_java e h err :
  find_config_dir e h = Err err -> err <> java_not_found.
Proof.
  unfold find_config_dir. cbv zeta. destruct_matches; intros H; inversion H; subst;
    not_java_string.
Qed.

Lemma send_raw_err_not_java msg t t' err :
  send_raw msg t = (t', Some err) -> err <> java_not_found.
Proof.
  unfold send_raw. destruct (stdin_error t); intros H; inversion H; subst.
  not_java_string.
Qed.

Lemma initialize_err_not_java e root t t' err :
  initialize_request e root t = (Err err, t') -> err <> java_not_found.
Proof.
  unfold initialize_request, request_send, fetch_add_id.
  destruct (send_raw _ _) as [t3 [w|]] eqn:Hw; cbv zeta.
  - intros H; inversion H; subst. eapply send_raw_err_not_java. exact Hw.
  - unfold finish_request. destruct_matches; intros H; inversion H; subst;
      not_java_string.
Qed.

Lemma notify_err_not_java meth p t t' err :
  notify meth p t = (t', Some err) -> err <> java_not_found.
Proof. unfold notify. apply send_raw_err_not_java. Qed.

(** [find_java] never fails. *)
Lemma find_java_some e : find_java e <> None.
Proof. unfold find_java. destruct_matches; discriminate. Qed.

(** Claim C8, as the code has it. The installation locator either finds a
    path or makes [start] fail with the descriptive "not found, set
    JDTLS_HOME or install" string; the Java locator always returns a path,
    [$JAVA_HOME/bin/java] when that file exists and the bare [java]
    otherwise, so the Java-not-found error is never returned by [start]:
    when no Java runtime is present ([JAVA_HOME] gives none and spawning
    [java] fails), a start whose earlier steps succeed fails with
    "Failed to spawn JDT LS: " and the spawn error. *)
Theorem locators_in_start e m root :
  find_java e <> None /\
  fst (start e m root) <> Err java_not_found /\
  (m_status m <> Running -> m_status m <> Starting ->
   find_jdtls e = None -> fst (start e m root) = Err jdtls_not_found) /\
  (forall h, getenv e "JAVA_HOME" = Some h -> path_exists e (path_join h "bin/java") = true ->
   find_java e = Some (path_join h "bin/java")) /\
  ((getenv e "JAVA_HOME" = None \/
    exists h, getenv e "JAVA_HOME" = Some h /\ path_exists e (path_join h "bin/java") = false) ->
   find_java e = Some "java") /\
  (forall home jar cfg err,
   m_status m <> Running -> m_status m <> Starting ->
   find_jdtls e = Some home ->
   find_launcher_jar e (path_join home "plugins") = Ok jar ->
   find_config_dir e home = Ok cfg ->
   create_dir_all e (workspace_data_dir e root) = None ->
   (getenv e "JAVA_HOME" = None \/
    exists h, getenv e "JAVA_HOME" = Some h /\ path_exists e (path_join h "bin/java") = false) ->
   (forall args, spawn e "java" args = Err err) ->
   fst (start e m root) = Err ("Failed to spawn JDT LS: " ++ err)%string).
Proof.
  assert (Hbare : (getenv e "JAVA_HOME" = None \/
    exists h, getenv e "JAVA_HOME" = Some h /\ path_exists e (path_join h "bin/java") = false) ->
   find_java e = Some "java").
  { intros [Hn | (h & Hh & Hp)]; unfold find_java; [rewrite Hn|rewrite Hh; cbv zeta; rewrite Hp];
      reflexivity. }
  split; [apply find_java_some|]. split.
  - pose proof (find_java_some e) as Hj.
    unfold start. cbv zeta. destruct_matches; try congruence; simpl;
      try discriminate; intros H; inversion H; subst;
      first [ exact (launcher_err_not_java _ _ _ ltac:(eassumption) eq_refl)
            | exact (config_err_not_java _ _ _ ltac:(eassumption) eq_refl)
            | exact (initialize_err_not_java _ _ _ _ _ ltac:(eassumption) eq_refl)
            | exact (notify_err_not_java _ _ _ _ _ ltac:(eassumption) eq_refl)
            | unfold jdtls_not_found, java_not_found in *; simpl in *;
              discriminate ].
  - split.
    + intros HR HS Hj. unfold start. rewrite Hj.
      destruct (m_status m); try congruence; reflexivity.
    + split; [intros h Hh Hp; unfold find_java; rewrite Hh; cbv zeta; rewrite Hp; reflexivity|].
      split; [exact Hbare|].
      intros home jar cfg err HR HS Hj Hl Hc Hd Hnj Hsp.
      unfold start. cbv zeta. rewrite Hj, (Hbare Hnj), Hl, Hc, Hd, Hsp.
      destruct (m_status m); try congruence; reflexivity.
Qed.

Lemma locators_in_start_witness :
  fst (start env_without_jdtls manager_new "/home/u/proj") = Err jdtls_not_found /\
  fst (start env_without_java manager_new "/home/u/proj")
    = Err ("Failed to spawn JDT LS: " ++ "No such file or directory (os error 2)")%string.
Proof.
  destruct (locators_in_start env_without_jdtls manager_new "/home/u/proj")
    as (_ & _ & H3 & _).
  destruct (locators_in_start env_without_java manager_new "/home/u/proj")
    as (_ & _ & _ & _ & _ & H6).
  split.
  - apply H3; [discriminate | discriminate | vm_compute; reflexivity].
  - apply (H6 "/opt/jdtls" "/opt/jdtls/plugins/org.eclipse.equinox.launcher_1.6.900.jar"
             "/opt/jdtls/config_linux");
      [discriminate | discriminate | vm_compute; reflexivity | vm_compute; reflexivity
      | vm_compute; reflexivity | reflexivity | left; reflexivity | intros args; reflexivity].
Defined.

(** With JDT LS installed and no Java runtime ([JAVA_HOME] unset and no
    [java] on [PATH]), [start] does not fail with the Java-not-found
    error: [find_java] yields [java] and the failure is the spawn's. *)
Lemma missing_java_is_spawn_failure :
  getenv env_without_java "JAVA_HOME" = None /\
  find_java env_without_java = Some "java" /\
  fst (start env_without_java manager_new "/home/u/proj")
    = Err "Failed to spawn JDT LS: No such file or directory (os error 2)" /\
  fst (start env_without_java manager_new "/home/u/proj") <> Err java_not_found.
Proof.
  vm_compute. split; [reflexivity|]. split; [reflexivity|]. split; [reflexivity|].
  discriminate.
Qed.

Lemma feature_call_rx m f :
  m_notification_rx (snd (feature_call m f)) = m_notification_rx m.
Proof.
  unfold feature_call. destruct (m_transport m); [|reflexivity].
  destruct (feature_call_of f).
  - destruct (notify _ _ _); reflexivity.
  - destruct (request_send _ _ _) as [[? ?] ?]; reflexivity.
Qed.

Lemma run_ops_rx_none m ops :
  m_notification_rx m = None -> m_notification_rx (run_ops m ops) = None.
Proof.
  revert m. induction ops as [|op ops IH]; intros m Hm; [exact Hm|].
  simpl. apply IH. destruct op; simpl; try reflexivity.
  - rewrite feature_call_rx. exact Hm.
  - exact Hm.
Qed.

(** Claim C9. After a [start] that begins and succeeds, the first
    [take_notification_rx] yields the receiver, and every later take
    yields nothing, whatever other operations short of a new [start] run
    in between (takes, feature calls, [stop], [status]). *)
Theorem notification_rx_taken_once e m root m' :
  m_status m <> Running -> m_status m <> Starting ->
  start e m root = (Ok tt, m') ->
  (exists pid, fst (take_notification_rx m') = Some (NotificationRx pid)) /\
  forall ops, fst (take_notification_rx (run_ops (snd (take_notification_rx m')) ops)) = None.
Proof.
  intros HR HS Hst.
  destruct (start_shape e m root HR HS) as [[err Herr] | [t [pid Hok]]].
  - rewrite Hst in Herr. discriminate.
  - rewrite Hst in Hok. injection Hok as ->. split.
    + exists pid. reflexivity.
    + intros ops. apply run_ops_rx_none. reflexivity.
Qed.

Lemma notification_rx_taken_once_witness :
  (exists pid, fst (take_notification_rx
                      (snd (start env_working manager_new "/home/u/proj")))
               = Some (NotificationRx pid)) /\
  forall ops, fst (take_notification_rx
                     (run_ops (snd (take_notification_rx
                                      (snd (start env_working manager_new "/home/u/proj"))))
                              ops)) = None.
Proof.
  apply (notification_rx_taken_once env_working manager_new "/home/u/proj");
    [discriminate | discriminate | vm_compute; reflexivity].
Defined.

(* ================================================================== *)
(** * Further properties of the code *)

(* ------------------------------------------------------------------ *)
(** ** Requests and routing *)

(** A write error in [request]: the caller gets the error, but the pending
    entry it inserted before writing stays in the table (nothing removes
    it), and the id is used up. *)
Theorem request_write_failure_keeps_entry method params t e :
  stdin_error t = Some e ->
  exists t',
    request_send method params t
      = (next_id t, t', Some ("Failed to write to LSP: " ++ e)%string) /\
    pending t' !! next_id t = Some tt /\
    written t' = written t /\
    next_id t' = wrap_i64 (next_id t + 1).
Proof.
  intros He. unfold request_send, fetch_add_id, send_raw. simpl. rewrite He.
  eexists. split; [reflexivity|]. simpl.
  split; [apply lookup_insert_eq|]. split; reflexivity.
Qed.

Lemma request_write_failure_keeps_entry_witness :
  stdin_error (transport_new (Some "Broken pipe (os error 32)"))
    = Some "Broken pipe (os error 32)" /\
  exists t',
    request_send "textDocument/hover" None (transport_new (Some "Broken pipe (os error 32)"))
      = (1, t', Some ("Failed to write to LSP: " ++ "Broken pipe (os error 32)")%string) /\
    pending t' !! 1 = Some tt /\ written t' = [] /\ next_id t' = wrap_i64 2.
Proof.
  assert (H : stdin_error (transport_new (Some "Broken pipe (os error 32)"))
                = Some "Broken pipe (os error 32)") by reflexivity.
  split; [exact H|].
  exact (request_write_failure_keeps_entry "textDocument/hover" None _ _ H).
Defined.

(** A response for an id that is not pending changes nothing. *)
Lemma route_answers_not_pending k v t m :
  decode_message v = Some m -> answers k m = true -> pending t !! k = None ->
  route v t = t.
Proof.
  intros Hd Ha Hp. unfold route. rewrite Hd.
  unfold answers in Ha. apply andb_prop in Ha as [Hr Ha]. rewrite Hr.
  destruct (msg_id m) as [[| | n | | |]|]; try discriminate.
  destruct (as_i64 n) as [i|]; [|discriminate].
  apply bool_decide_eq_true in Ha. subst i. rewrite Hp. reflexivity.
Qed.

(** The first response for a pending id is delivered and removes the
    entry; any later response for the same id is dropped and changes
    nothing, so a caller is answered at most once. *)
Theorem duplicate_response_ignored k v m v' m' t :
  pending t !! k = Some tt ->
  decode_message v = Some m -> answers k m = true ->
  decode_message v' = Some m' -> answers k m' = true ->
  route v t = deliver k m t /\ route v' (route v t) = route v t.
Proof.
  intros Hp Hd Ha Hd' Ha'.
  assert (Hr : route v t = deliver k m t) by (apply route_answers; assumption).
  split; [exact Hr|]. rewrite Hr.
  apply (route_answers_not_pending k v' _ m' Hd' Ha'). simpl. apply lookup_delete_eq.
Qed.

Lemma duplicate_response_ignored_witness :
  let t := run (transport_new None) [EAlloc; EInsert 1] in
  let v := response_frame 1 (JString "first") in
  let v' := response_frame 1 (JString "second") in
  let m := {| msg_id := Some (JNumber (NPosInt 1)); msg_method := None;
              msg_result := Some (JString "first"); msg_error := None; msg_params := None |} in
  let m' := {| msg_id := Some (JNumber (NPosInt 1)); msg_method := None;
               msg_result := Some (JString "second"); msg_error := None; msg_params := None |} in
  pending t !! 1 = Some tt /\ decode_message v = Some m /\ answers 1 m = true /\
  decode_message v' = Some m' /\ answers 1 m' = true /\
  route v t = deliver 1 m t /\ route v' (route v t) = route v t.
Proof.
  intros t v v' m m'.
  assert (H1 : pending t !! 1 = Some tt) by reflexivity.
  assert (H2 : decode_message v = Some m) by reflexivity.
  assert (H3 : answers 1 m = true) by reflexivity.
  assert (H4 : decode_message v' = Some m') by reflexivity.
  assert (H5 : answers 1 m' = true) by reflexivity.
  do 5 (split; [assumption|]).
  exact (duplicate_response_ignored 1 v m v' m' t H1 H2 H3 H4 H5).
Defined.

(* ------------------------------------------------------------------ *)
(** ** Decoding [LspMessage] *)

Lemma visit_map_app acc l1 l2 :
  visit_map acc (l1 ++ l2) =
    match visit_map acc l1 with Some a => visit_map a l2 | None => None end.
Proof.
  revert acc. induction l1 as [|kv l1 IH]; intros acc; [reflexivity|].
  simpl. destruct (visit_entry acc kv); [apply IH|reflexivity].
Qed.

Lemma visit_map_cons acc kv l :
  visit_map acc (kv :: l) =
    match visit_entry acc kv with None => None | Some a => visit_map a l end.
Proof. reflexivity. Qed.

Lemma field_names_cases k :
  In k field_names ->
  k = "id" \/ k = "method" \/ k = "result" \/ k = "error" \/ k = "params".
Proof. simpl. intuition. Qed.

Lemma visit_entry_marks k v acc acc' :
  In k field_names -> visit_entry acc (k, v) = Some acc' -> field_seen k acc' = true.
Proof.
  intros Hk. destruct acc as [i me r e p].
  destruct (field_names_cases k Hk) as [->|[->|[->|[->| ->]]]];
    unfold visit_entry; simpl; intros H;
    repeat (case_match; simplify_eq/=); reflexivity.
Qed.

Lemma visit_entry_keeps k kv acc acc' :
  field_seen k acc = true -> visit_entry acc kv = Some acc' -> field_seen k acc' = true.
Proof.
  destruct kv as [k' v']. destruct acc as [i me r e p].
  unfold field_seen, visit_entry. simpl. intros Hs H.
  repeat (case_match; simplify_eq/=); try reflexivity; try discriminate; assumption.
Qed.

Lemma visit_entry_repeated k v acc :
  field_seen k acc = true -> visit_entry acc (k, v) = None.
Proof.
  destruct acc as [i me r e p]. unfold field_seen, visit_entry. simpl. intros Hs.
  repeat (case_match; simplify_eq/=); try reflexivity; try discriminate.
Qed.

Lemma visit_map_keeps k l acc acc' :
  field_seen k acc = true -> visit_map acc l = Some acc' -> field_seen k acc' = true.
Proof.
  revert acc. induction l as [|kv l IH]; intros acc Hs H; simpl in H.
  - congruence.
  - destruct (visit_entry acc kv) as [a|] eqn:E; [|discriminate].
    exact (IH a (visit_entry_keeps k kv acc a Hs E) H).
Qed.

(** A message object in which a field of [LspMessage] occurs twice does
    not decode ([duplicate_field]), so the reader skips the frame. *)
Theorem repeated_field_rejected k l1 v1 l2 v2 l3 :
  In k field_names ->
  decode_message (JObject (l1 ++ (k, v1) :: l2 ++ (k, v2) :: l3)) = None.
Proof.
  intros Hk. unfold decode_message. rewrite visit_map_app.
  destruct (visit_map seen_none l1) as [a|]; [|reflexivity].
  rewrite visit_map_cons.
  destruct (visit_entry a (k, v1)) as [a1|] eqn:E1; [|reflexivity].
  rewrite visit_map_app.
  destruct (visit_map a1 l2) as [a2|] eqn:E2; [|reflexivity].
  rewrite visit_map_cons, (visit_entry_repeated k v2 a2); [reflexivity|].
  exact (visit_map_keeps k l2 a1 a2 (visit_entry_marks k v1 a a1 Hk E1) E2).
Qed.

Lemma repeated_field_rejected_witness :
  In "id" field_names /\
  decode_message (JObject ([("jsonrpc", JString "2.0")] ++
                           ("id", JNumber (NPosInt 1)) ::
                           [("result", JNull)] ++
                           ("id", JNumber (NPosInt 2)) :: [])) = None.
Proof.
  assert (H : In "id" field_names) by (simpl; auto).
  split; [exact H|]. apply repeated_field_rejected. exact H.
Defined.

Lemma visit_entry_unknown k v acc :
  ~ In k field_names -> visit_entry acc (k, v) = Some acc.
Proof.
  intros Hk. unfold visit_entry.
  assert (Hn : forall f, In f field_names -> String.eqb k f = false).
  { intros f Hf. apply String.eqb_neq. intros ->. exact (Hk Hf). }
  rewrite !Hn by (simpl; intuition). reflexivity.
Qed.

(** Keys other than the five fields (such as ["jsonrpc"]) are ignored
    wherever they occur. *)
Theorem unknown_key_ignored k v l1 l2 :
  ~ In k field_names ->
  decode_message (JObject (l1 ++ (k, v) :: l2)) = decode_message (JObject (l1 ++ l2)).
Proof.
  intros Hk. unfold decode_message. rewrite !visit_map_app.
  destruct (visit_map seen_none l1) as [a|]; [|reflexivity].
  rewrite visit_map_cons, visit_entry_unknown by exact Hk. reflexivity.
Qed.

Lemma unknown_key_ignored_witness :
  ~ In "jsonrpc" field_names /\
  decode_message (JObject ([("id", JNumber (NPosInt 4))] ++ ("jsonrpc", JString "2.0") ::
                           [("result", JBool true)]))
    = decode_message (JObject ([("id", JNumber (NPosInt 4))] ++ [("result", JBool true)])).
Proof.
  assert (H : ~ In "jsonrpc" field_names) by (simpl; intuition discriminate).
  split; [exact H|]. apply unknown_key_ignored. exact H.
Defined.

(** The id a request writes ([Value::from(i64)]), echoed back by the
    server in a response, is read by [as_i64] as the same id: the response
    answers that request and no other. *)
Theorem echoed_id_answers k m :
  i64_min <= k <= i64_max ->
  msg_id m = Some (json_of_i64 k) -> msg_method m = None ->
  answers k m = true /\ forall k', k' <> k -> answers k' m = false.
Proof.
  intros Hk Hid Hm.
  assert (Ha : forall k', answers k' m = bool_decide (k = k')).
  { intros k'. unfold answers, is_response. rewrite Hid, Hm. simpl.
    unfold json_of_i64. destruct (0 <=? k) eqn:E; simpl.
    - replace (k <=? i64_max) with true by (symmetry; apply Z.leb_le; lia). reflexivity.
    - reflexivity. }
  split.
  - rewrite Ha. apply bool_decide_eq_true. reflexivity.
  - intros k' Hne. rewrite Ha. apply bool_decide_eq_false. congruence.
Qed.

Lemma echoed_id_answers_witness :
  let m := {| msg_id := Some (json_of_i64 (-7)); msg_method := None;
              msg_result := Some JNull; msg_error := None; msg_params := None |} in
  i64_min <= -7 <= i64_max /\ msg_id m = Some (json_of_i64 (-7)) /\ msg_method m = None /\
  answers (-7) m = true /\ forall k', k' <> -7 -> answers k' m = false.
Proof.
  intros m.
  assert (H1 : i64_min <= -7 <= i64_max) by (unfold i64_min, i64_max; lia).
  split; [exact H1|]. split; [reflexivity|]. split; [reflexivity|].
  exact (echoed_id_answers (-7) m H1 eq_refl eq_refl).
Defined.

(* ------------------------------------------------------------------ *)
(** ** More on framing *)


Lemma utf8_decode_length l cs : utf8_decode l = Some cs -> (length cs <= length l)%nat.
Proof.
  revert cs. induction l as [l IH] using (induction_ltof1 _ (@length Z)); unfold ltof in IH.
  intros cs H. destruct l as [|b1 r1]; simpl in H.
  - inversion H; subst. simpl. lia.
  - repeat (case_match; simplify_eq/=); try discriminate;
      try (destruct (utf8_decode _) as [x|] eqn:Ex; simpl in H; inversion H; subst;
           match type of Ex with
           | utf8_decode ?r = _ =>
               let Hl := fresh in
               assert (Hl : (length x <= length r)%nat) by (apply IH; [simpl; lia|exact Ex]);
               simpl; lia
           end).
Qed.



(** The header of a frame of [n] bytes followed by anything: the header
    loop stops at the blank line with the length [n]. *)
Lemma read_headers_frame_header n x f :
  0 <= n <= usize_max ->
  read_headers (S (S f)) None (frame_header n ++ x) = Some (Some n, x).
Proof.
  intros Hn. unfold frame_header.
  assert (Hl1 : read_line ((content_length_prefix ++ ascii_digits n ++ [13; 10; 13; 10]) ++ x)
                = Line ((content_length_prefix ++ ascii_digits n ++ [13]) ++ [10])
                       (13 :: 10 :: x)).
  { replace ((content_length_prefix ++ ascii_digits n ++ [13; 10; 13; 10]) ++ x)
      with ((content_length_prefix ++ ascii_digits n ++ [13]) ++ 10 :: 13 :: 10 :: x)
      by (rewrite <- !app_assoc; reflexivity).
    apply read_line_ascii.
    apply List.Forall_app. split; [exact content_length_prefix_ascii|].
    apply List.Forall_app. split; [|repeat constructor; lia].
    eapply List.Forall_impl; [|apply ascii_digits_range; lia]. simpl. lia. }
  assert (Hl2 : read_line (13 :: 10 :: x) = Line [13; 10] x).
  { apply (read_line_ascii [13] x). repeat constructor; lia. }
  rewrite (read_headers_line _ _ _ _ _ Hl1).
  replace ((content_length_prefix ++ ascii_digits n ++ [13]) ++ [10])
    with (content_length_prefix ++ ascii_digits n ++ [13; 10])
    by (rewrite <- !app_assoc; reflexivity).
  rewrite trim_header by lia.
  destruct content_length_prefix_cons as [tl Htl].
  rewrite Htl, <- app_comm_cons. cbv iota.
  rewrite (app_comm_cons tl _ 67), <- Htl, strip_prefix_app.
  destruct (ascii_digits n) as [|c ds] eqn:Ed; [exfalso; exact (ascii_digits_nonempty n Ed)|].
  pose proof (ascii_digits_range n ltac:(lia)) as Hr. rewrite Ed in Hr.
  apply List.Forall_cons_iff in Hr as [Hc _].
  rewrite parse_usize_digit by exact Hc. rewrite <- Ed, ascii_digits_parse by exact Hn.
  rewrite (read_headers_line _ _ _ _ _ Hl2).
  change (trim [13; 10]) with (@nil Z). reflexivity.
Qed.

Lemma frame_header_length n : (2 <= length (frame_header n))%nat.
Proof.
  unfold frame_header. rewrite !length_app. simpl. lia.
Qed.

(** A frame whose body is cut short (the stream ends before all the bytes
    the header announced) makes the reader return: no partial body is
    ever handed on. *)
Theorem truncated_body_stops_reader body part rest :
  body = part ++ rest -> rest <> [] ->
  Z.of_nat (length body) <= usize_max ->
  read_frame (frame_header (Z.of_nat (length body)) ++ part) = FrameEnd.
Proof.
  intros Hb Hr Hlen. unfold read_frame.
  pose proof (frame_header_length (Z.of_nat (length body))) as Hh.
  destruct (length (frame_header (Z.of_nat (length body)) ++ part)) as [|[|f]] eqn:E;
    [rewrite length_app in E; lia|rewrite length_app in E; lia|].
  rewrite read_headers_frame_header by lia.
  replace (Z.of_nat (length part) <? Z.of_nat (length body)) with true; [reflexivity|].
  symmetry. apply Z.ltb_lt. subst body. rewrite length_app.
  destruct rest; [congruence|]. simpl. lia.
Qed.

Lemma truncated_body_stops_reader_witness :
  multibyte_body = firstn 5 multibyte_body ++ skipn 5 multibyte_body /\
  skipn 5 multibyte_body <> [] /\
  Z.of_nat (length multibyte_body) <= usize_max /\
  read_frame (frame_header (Z.of_nat (length multibyte_body)) ++ firstn 5 multibyte_body)
    = FrameEnd.
Proof.
  assert (H1 : multibyte_body = firstn 5 multibyte_body ++ skipn 5 multibyte_body)
    by reflexivity.
  assert (H2 : skipn 5 multibyte_body <> []) by discriminate.
  assert (H3 : Z.of_nat (length multibyte_body) <= usize_max) by (apply Z.leb_le; reflexivity).
  split; [exact H1|]. split; [exact H2|]. split; [exact H3|].
  exact (truncated_body_stops_reader _ _ _ H1 H2 H3).
Defined.



(* ------------------------------------------------------------------ *)
(** ** More on the manager *)

Lemma initialize_request_ok e root se v t1 :
  initialize_request e root (transport_new se) = (Ok v, t1) ->
  se = None /\
  written t1 = [request_json 1 "initialize" (Some (initialize_params e root))] /\
  next_id t1 = 2 /\ pending t1 = ∅ /\ stdin_error t1 = None.
Proof.
  unfold initialize_request, request_send, fetch_add_id, insert_pending, send_raw, transport_new.
  destruct se as [err|]; cbn; [intros H; discriminate|].
  destruct (initialize_reply e) as [msg|] eqn:Er; cbn; [|intros H; discriminate].
  intros H. injection H as _ <-. cbn. repeat split.
Qed.

(** A [start] that begins and succeeds leaves a transport that has written
    exactly the [initialize] request (id 1) and the [initialized]
    notification, whose next id is 2 and whose pending table is empty. *)
Theorem start_success_handshake e m root m' :
  m_status m <> Running -> m_status m <> Starting ->
  start e m root = (Ok tt, m') ->
  exists t, m_transport m' = Some t /\
    written t = [request_json 1 "initialize" (Some (initialize_params e root));
                 notification_json "initialized" (Some (JObject []))] /\
    next_id t = 2 /\ pending t = ∅.
Proof.
  intros HR HS. unfold start. cbv zeta.
  destruct (m_status m); try congruence;
  destruct_matches; intros H; try discriminate.
  all: injection H as <-. all: eexists; cbn; split; [reflexivity|].
  all: match goal with
       | Hi : initialize_request _ _ _ = (Ok _, _) |- _ =>
           destruct (initialize_request_ok _ _ _ _ _ Hi) as (_ & Hw & Hn & Hp & Hse)
       end.
  all: match goal with
       | Hn' : notify _ _ _ = (_, None) |- _ =>
           unfold notify, send_raw in Hn'; rewrite Hse in Hn'; injection Hn' as <-
       end.
  all: cbn; rewrite Hw, Hn, Hp; repeat split.
Qed.

Lemma start_success_handshake_witness :
  exists t, m_transport (snd (start env_working manager_new "/home/u/proj")) = Some t /\
    written t = [request_json 1 "initialize"
                   (Some (initialize_params env_working "/home/u/proj"));
                 notification_json "initialized" (Some (JObject []))] /\
    next_id t = 2 /\ pending t = ∅.
Proof.
  apply (start_success_handshake env_working manager_new "/home/u/proj");
    [discriminate | discriminate | vm_compute; reflexivity].
Defined.

(** A [start] that begins on a manager holding no transport and fails
    leaves the manager stuck: its status stays [Starting], every feature
    operation fails with "LSP not running", and every later [start]
    returns [Ok] without doing anything. *)
Theorem failed_start_stuck e m root err :
  m_status m <> Running -> m_status m <> Starting -> m_transport m = None ->
  fst (start e m root) = Err err ->
  let m' := snd (start e m root) in
  status m' = Starting /\
  (forall f, feature_call m' f = (CallFailed "LSP not running", m')) /\
  (forall e' root', start e' m' root' = (Ok tt, m')).
Proof.
  intros HR HS Ht Herr.
  destruct (start_shape e m root HR HS) as [[err' Hs] | [t [pid Hs]]];
    rewrite Hs in *; cbn in *; [|discriminate].
  split; [reflexivity|]. split.
  - intros f. unfold feature_call. cbn. rewrite Ht. reflexivity.
  - intros e' root'. reflexivity.
Qed.

Lemma failed_start_stuck_witness :
  let m' := snd (start env_without_jdtls manager_new "/home/u/proj") in
  status m' = Starting /\
  (forall f, feature_call m' f = (CallFailed "LSP not running", m')) /\
  (forall e' root', start e' m' root' = (Ok tt, m')).
Proof.
  apply (failed_start_stuck env_without_jdtls manager_new "/home/u/proj" jdtls_not_found);
    [discriminate | discriminate | reflexivity | vm_compute; reflexivity].
Defined.

(** [stop] on a manager whose transport writes without error writes the
    [shutdown] request (with the next id) and then the [exit] notification,
    and nothing else. *)
Theorem stop_writes_shutdown_exit reply m t :
  m_transport m = Some t -> stdin_error t = None ->
  exists t', snd (stop reply m) = Some t' /\
    written t' = (written t ++ [request_json (next_id t) "shutdown" None;
                               notification_json "exit" None])%list /\
    next_id t' = wrap_i64 (next_id t + 1).
Proof.
  intros Ht He. unfold stop. rewrite Ht.
  unfold request_send, fetch_add_id, insert_pending, send_raw. cbn [stdin_error].
  rewrite He.
  destruct reply as [msg|]; unfold notify, send_raw; cbn; rewrite ?He; cbn;
    eexists; (split; [reflexivity|]); cbn; rewrite <- app_assoc; split; reflexivity.
Qed.

Lemma stop_writes_shutdown_exit_witness :
  exists t', snd (stop RecvClosed (running_manager None)) = Some t' /\
    written t' = (written (transport_new None)
                  ++ [request_json (next_id (transport_new None)) "shutdown" None;
                      notification_json "exit" None])%list /\
    next_id t' = wrap_i64 (next_id (transport_new None) + 1).
Proof.
  apply (stop_writes_shutdown_exit RecvClosed (running_manager None) (transport_new None));
    reflexivity.
Defined.

(** A notification feature on a running transport appends exactly its
    notification to the written messages and leaves the id counter and the
    pending table unchanged. *)
Theorem feature_notify_writes m t f method params :
  m_transport m = Some t -> stdin_error t = None ->
  feature_call_of f = CallNotify method params ->
  exists t', feature_call m f = (CallNotified, with_transport m t') /\
    written t' = (written t ++ [notification_json method (Some params)])%list /\
    next_id t' = next_id t /\ pending t' = pending t.
Proof.
  intros Ht He Hf. unfold feature_call. rewrite Ht, Hf.
  unfold notify, send_raw. rewrite He. eexists. repeat split.
Qed.

Lemma feature_notify_writes_witness :
  exists t', feature_call (running_manager None) (DidClose "file:///p/A.java")
               = (CallNotified, with_transport (running_manager None) t') /\
    written t' = (written (transport_new None)
                  ++ [notification_json "textDocument/didClose"
                        (Some (JObject [("textDocument", text_document "file:///p/A.java")]))])%list /\
    next_id t' = next_id (transport_new None) /\ pending t' = pending (transport_new None).
Proof.
  apply (feature_notify_writes (running_manager None) (transport_new None)
           (DidClose "file:///p/A.java")); reflexivity.
Defined.

(** A request feature on a running transport takes the next id, registers
    it as pending, appends exactly its request with that id and advances the
    counter; the call then awaits the reply for that id. *)
Theorem feature_request_writes m t f method params :
  m_transport m = Some t -> stdin_error t = None ->
  feature_call_of f = CallRequest method params ->
  exists t', feature_call m f = (CallAwaiting (next_id t), with_transport m t') /\
    written t' = (written t ++ [request_json (next_id t) method (Some params)])%list /\
    next_id t' = wrap_i64 (next_id t + 1) /\ pending t' = <[next_id t := tt]> (pending t).
Proof.
  intros Ht He Hf. unfold feature_call. rewrite Ht, Hf.
  unfold request_send, fetch_add_id, insert_pending, send_raw. cbn. rewrite He.
  eexists. repeat split.
Qed.

Lemma feature_request_writes_witness :
  exists t', feature_call (running_manager None) (Hover "file:///p/A.java" 4 2)
               = (CallAwaiting (next_id (transport_new None)),
                  with_transport (running_manager None) t') /\
    written t' = (written (transport_new None)
                  ++ [request_json (next_id (transport_new None)) "textDocument/hover"
                        (Some (JObject [("textDocument", text_document "file:///p/A.java");
                                        ("position", position 4 2)]))])%list /\
    next_id t' = wrap_i64 (next_id (transport_new None) + 1) /\
    pending t' = <[next_id (transport_new None) := tt]> (pending (transport_new None)).
Proof.
  apply (feature_request_writes (running_manager None) (transport_new None)
           (Hover "file:///p/A.java" 4 2)); reflexivity.
Defined.

(** When writing to the server fails, every feature operation fails with
    "Failed to write to LSP: " and the I/O error, and the manager's status
    and notification receiver are left as they were. *)
Theorem feature_write_error m t f e :
  m_transport m = Some t -> stdin_error t = Some e ->
  fst (feature_call m f) = CallFailed ("Failed to write to LSP: " ++ e) /\
  status (snd (feature_call m f)) = status m /\
  m_notification_rx (snd (feature_call m f)) = m_notification_rx m.
Proof.
  intros Ht He. unfold feature_call. rewrite Ht.
  destruct (feature_call_of f) as [method params|method params].
  - unfold notify, send_raw. rewrite He. repeat split.
  - unfold request_send, fetch_add_id, insert_pending, send_raw. cbn. rewrite He.
    repeat split.
Qed.

Lemma feature_write_error_witness :
  fst (feature_call (running_manager (Some "Broken pipe (os error 32)"))
         (Completion "file:///p/A.java" 4 2))
    = CallFailed ("Failed to write to LSP: " ++ "Broken pipe (os error 32)") /\
  status (snd (feature_call (running_manager (Some "Broken pipe (os error 32)"))
                 (Completion "file:///p/A.java" 4 2)))
    = status (running_manager (Some "Broken pipe (os error 32)")) /\
  m_notification_rx (snd (feature_call (running_manager (Some "Broken pipe (os error 32)"))
                            (Completion "file:///p/A.java" 4 2)))
    = m_notification_rx (running_manager (Some "Broken pipe (os error 32)")).
Proof.
  apply (feature_write_error _ (transport_new (Some "Broken pipe (os error 32)")));
    reflexivity.
Defined.

(* ------------------------------------------------------------------ *)
(** ** The locators of [start] *)

Lemma find_some_first {A} (p : A -> bool) l x :
  find p l = Some x ->
  exists pre post, l = (pre ++ x :: post)%list /\ p x = true /\ Forall (fun y => p y = false) pre.
Proof.
  induction l as [|y l IH]; simpl; [discriminate|].
  destruct (p y) eqn:Ey.
  - intros H. injection H as <-. exists [], l. repeat split; auto.
  - intros H. destruct (IH H) as (pre & post & -> & Hx & Hpre).
    exists (y :: pre), post. repeat split; auto.
Qed.

(** [find_jdtls] only returns a path that exists, and that path is either
    [JDTLS_HOME] or one of the five fixed candidates. *)
Theorem find_jdtls_exists e p :
  find_jdtls e = Some p ->
  path_exists e p = true /\
  (getenv e "JDTLS_HOME" = Some p \/
   In p ["/opt/homebrew/opt/jdtls/libexec"; "/usr/local/opt/jdtls/libexec";
         "/usr/share/java/jdtls"; "/usr/local/share/jdtls";
         (match getenv e "HOME" with Some h => h | None => "" end ++ "/.local/share/jdtls")%string]).
Proof.
  unfold find_jdtls. cbv zeta.
  destruct (getenv e "JDTLS_HOME") as [home|] eqn:Eh.
  - destruct (path_exists e home) eqn:Ep.
    + intros H. injection H as <-. auto.
    + intros H. apply find_some_first in H as (pre & post & Hl & Hx & _).
      split; [exact Hx|]. right. rewrite Hl. apply in_or_app. right. left. reflexivity.
  - intros H. apply find_some_first in H as (pre & post & Hl & Hx & _).
    split; [exact Hx|]. right. rewrite Hl. apply in_or_app. right. left. reflexivity.
Qed.

Lemma find_jdtls_exists_witness :
  path_exists env_working "/opt/jdtls" = true /\
  (getenv env_working "JDTLS_HOME" = Some "/opt/jdtls" \/
   In "/opt/jdtls" ["/opt/homebrew/opt/jdtls/libexec"; "/usr/local/opt/jdtls/libexec";
         "/usr/share/java/jdtls"; "/usr/local/share/jdtls";
         (match getenv env_working "HOME" with Some h => h | None => "" end
          ++ "/.local/share/jdtls")%string]).
Proof. apply find_jdtls_exists. vm_compute. reflexivity. Defined.

(** [find_launcher_jar] succeeds only on an existing plugins directory,
    with the first listed entry whose name starts with
    [org.eclipse.equinox.launcher_] and ends with [.jar], joined to the
    directory. *)
Theorem find_launcher_jar_ok e plugins p :
  find_launcher_jar e plugins = Ok p ->
  path_exists e plugins = true /\
  exists pre n post,
    read_dir e plugins = Ok (pre ++ n :: post)%list /\
    starts_with "org.eclipse.equinox.launcher_" n = true /\ ends_with ".jar" n = true /\
    Forall (fun y => starts_with "org.eclipse.equinox.launcher_" y
                     && ends_with ".jar" y = false) pre /\
    p = path_join plugins n.
Proof.
  unfold find_launcher_jar.
  destruct (path_exists e plugins) eqn:Ep; cbn; [|discriminate].
  destruct (read_dir e plugins) as [names|err]; [|discriminate].
  destruct (find _ names) as [n|] eqn:Ef; [|discriminate].
  intros H. injection H as <-. split; [reflexivity|].
  apply find_some_first in Ef as (pre & post & -> & Hx & Hpre).
  apply andb_true_iff in Hx as [Hx1 Hx2].
  exists pre, n, post. repeat split; assumption.
Qed.

Lemma find_launcher_jar_ok_witness :
  path_exists env_working "/opt/jdtls/plugins" = true /\
  exists pre n post,
    read_dir env_working "/opt/jdtls/plugins" = Ok (pre ++ n :: post)%list /\
    starts_with "org.eclipse.equinox.launcher_" n = true /\ ends_with ".jar" n = true /\
    Forall (fun y => starts_with "org.eclipse.equinox.launcher_" y
                     && ends_with ".jar" y = false) pre /\
    "/opt/jdtls/plugins/org.eclipse.equinox.launcher_1.6.900.jar"
      = path_join "/opt/jdtls/plugins" n.
Proof. apply find_launcher_jar_ok. vm_compute. reflexivity. Defined.

(** [find_config_dir] only returns an existing directory: the OS-specific
    configuration directory of the JDT LS home, or its [config]. *)
Theorem find_config_dir_ok e home c :
  find_config_dir e home = Ok c ->
  path_exists e c = true /\
  (c = path_join home (if String.eqb (target_os e) "macos" then "config_mac"
                       else if String.eqb (target_os e) "windows" then "config_win"
                       else "config_linux") \/
   c = path_join home "config").
Proof.
  unfold find_config_dir. cbv zeta.
  destruct (path_exists e (path_join home _)) eqn:E1.
  - intros H. injection H as <-. auto.
  - destruct (path_exists e (path_join home "config")) eqn:E2; [|discriminate].
    intros H. injection H as <-. auto.
Qed.

Lemma find_config_dir_ok_witness :
  path_exists env_working "/opt/jdtls/config_linux" = true /\
  ("/opt/jdtls/config_linux"
     = path_join "/opt/jdtls" (if String.eqb (target_os env_working) "macos" then "config_mac"
                              else if String.eqb (target_os env_working) "windows" then "config_win"
                              else "config_linux") \/
   "/opt/jdtls/config_linux" = path_join "/opt/jdtls" "config").
Proof. apply find_config_dir_ok. vm_compute. reflexivity. Defined.

(* ------------------------------------------------------------------ *)
(** ** The workspace data directory *)

Lemma hex_value_digit d : 0 <= d < 16 -> hex_value (hex_digit d) = Some d.
Proof.
  intros Hd.
  assert (Hc : d = 0 \/ d = 1 \/ d = 2 \/ d = 3 \/ d = 4 \/ d = 5 \/ d = 6 \/ d = 7 \/
               d = 8 \/ d = 9 \/ d = 10 \/ d = 11 \/ d = 12 \/ d = 13 \/ d = 14 \/ d = 15)
    by lia.
  repeat (destruct Hc as [-> | Hc]; [reflexivity|]). subst d. reflexivity.
Qed.

Lemma parse_hex_from_app acc l1 l2 :
  parse_hex_from acc (l1 ++ l2)%list =
    match parse_hex_from acc l1 with Some a => parse_hex_from a l2 | None => None end.
Proof.
  revert acc. induction l1 as [|c l1 IH]; intros acc; [reflexivity|].
  simpl. destruct (hex_value c); [apply IH|reflexivity].
Qed.

Lemma parse_hex_rev f n acc :
  0 <= n < 16 ^ Z.of_nat f ->
  parse_hex_from acc (rev (hex_rev f n)) = Some (acc * 16 ^ Z.of_nat (length (hex_rev f n)) + n).
Proof.
  revert n acc. induction f as [|f IH]; intros n acc Hn.
  - simpl in *. f_equal. lia.
  - cbn [hex_rev rev]. rewrite parse_hex_from_app.
    assert (Hm : 0 <= n mod 16 < 16) by (apply Z.mod_pos_bound; lia).
    destruct (n <? 16) eqn:Elt.
    + apply Z.ltb_lt in Elt. cbn. rewrite hex_value_digit by exact Hm.
      rewrite Z.mod_small by lia. f_equal; lia.
    + apply Z.ltb_ge in Elt.
      assert (Hq : 0 <= n / 16 < 16 ^ Z.of_nat f).
      { split; [apply Z.div_pos; lia|]. apply Z.div_lt_upper_bound; [lia|].
        rewrite Nat2Z.inj_succ, Z.pow_succ_r in Hn by lia. lia. }
      rewrite IH by exact Hq. cbn. rewrite hex_value_digit by exact Hm.
      f_equal. rewrite Nat2Z.inj_succ, Z.pow_succ_r by lia.
      pose proof (Z.div_mod n 16 ltac:(lia)). nia.
Qed.

Lemma list_ascii_of_string_of_list_ascii l :
  list_ascii_of_string (string_of_list_ascii l) = l.
Proof. induction l as [|c l IH]; simpl; [reflexivity|]. rewrite IH. reflexivity. Qed.

Lemma lower_hex_parse n : 0 <= n < 2 ^ 64 -> parse_hex (lower_hex n) = Some n.
Proof.
  intros Hn. unfold parse_hex, lower_hex. rewrite list_ascii_of_string_of_list_ascii.
  rewrite parse_hex_rev by (change (16 ^ Z.of_nat 16) with (2 ^ 64); exact Hn).
  f_equal; lia.
Qed.

Lemma simple_hash_range s : 0 <= simple_hash s < 2 ^ 64.
Proof.
  unfold simple_hash.
  assert (H : forall l h, 0 <= h < 2 ^ 64 ->
            0 <= fold_left (fun h c => (h * 33 + Z.of_nat (nat_of_ascii c)) mod 2 ^ 64) l h
              < 2 ^ 64).
  { induction l as [|c l IH]; intros h Hh; [exact Hh|]. simpl. apply IH.
    apply Z.mod_pos_bound. lia. }
  apply H. lia.
Qed.

Lemma str_app_cons x (a b : string) : (String x a ++ b = String x (a ++ b))%string.
Proof. reflexivity. Qed.

Lemma str_app_assoc (a b c : string) : ((a ++ b) ++ c = a ++ b ++ c)%string.
Proof.
  induction a as [|x a IH]; [reflexivity|]. rewrite !str_app_cons, IH. reflexivity.
Qed.

Lemma str_app_length (a b : string) :
  String.length (a ++ b) = (String.length a + String.length b)%nat.
Proof.
  induction a as [|x a IH]; [reflexivity|]. rewrite str_app_cons. simpl. rewrite IH. reflexivity.
Qed.

Lemma substring_app a b k n :
  substring (String.length a + k) n (a ++ b)%string = substring k n b.
Proof. induction a as [|x a IH]; [reflexivity|]. rewrite str_app_cons. exact IH. Qed.

Lemma str_app_cancel (a b c : string) : (a ++ b = a ++ c)%string -> b = c.
Proof.
  induction a as [|x a IH]; [auto|]. rewrite !str_app_cons. intros H. injection H as H.
  exact (IH H).
Qed.

Lemma ends_with_workspace y : ends_with "/" (y ++ "jdtls-workspace")%string = false.
Proof.
  unfold ends_with. rewrite str_app_length. cbn [String.length].
  replace (String.length y + 15 - 1)%nat with (String.length y + 14)%nat by lia.
  rewrite substring_app. apply andb_false_iff. right. reflexivity.
Qed.

Lemma path_join_workspace home :
  exists y, path_join (path_join home ".alloy-ide") "jdtls-workspace"
            = (y ++ "jdtls-workspace")%string.
Proof.
  unfold path_join at 1. cbn [starts_with String.prefix]. cbv iota.
  destruct (String.eqb _ "").
  - exists EmptyString. reflexivity.
  - destruct (ends_with "/" _).
    + eexists. reflexivity.
    + eexists. rewrite <- str_app_assoc. reflexivity.
Qed.

Lemma hex_rev_digits f n : Forall (fun c => hex_value c <> None) (hex_rev f n).
Proof.
  revert n. induction f as [|f IH]; intros n; simpl; [constructor|].
  constructor.
  - rewrite hex_value_digit by (apply Z.mod_pos_bound; lia). discriminate.
  - destruct (n <? 16); [constructor|apply IH].
Qed.

Lemma lower_hex_relative n : starts_with "/" (lower_hex n) = false.
Proof.
  unfold lower_hex. pose proof (hex_rev_digits 16 n) as H.
  apply Forall_rev in H.
  destruct (rev (hex_rev 16 n)) as [|c l]; [reflexivity|].
  inversion H as [|? ? Hc _]; subst.
  change (string_of_list_ascii (c :: l)) with (String c (string_of_list_ascii l)).
  unfold starts_with. cbn -[ascii_dec].
  destruct (ascii_dec "/" c) as [<-|]; [exfalso; apply Hc; reflexivity|reflexivity].
Qed.

Lemma workspace_data_dir_eq e root :
  exists base, workspace_data_dir e root = (base ++ "/" ++ lower_hex (simple_hash root))%string
    /\ forall root', workspace_data_dir e root'
                      = (base ++ "/" ++ lower_hex (simple_hash root'))%string.
Proof.
  set (home := match getenv e "HOME" with Some h => h | None => "/tmp" end).
  destruct (path_join_workspace home) as [y Hy].
  exists (y ++ "jdtls-workspace")%string.
  assert (Hj : forall r, workspace_data_dir e r
                         = ((y ++ "jdtls-workspace") ++ "/" ++ lower_hex (simple_hash r))%string).
  { intros r. unfold workspace_data_dir. fold home. rewrite Hy.
    unfold path_join at 1. rewrite lower_hex_relative.
    destruct (String.eqb (y ++ "jdtls-workspace") "") eqn:E0.
    - apply String.eqb_eq in E0. apply (f_equal String.length) in E0.
      rewrite str_app_length in E0. simpl in E0. lia.
    - rewrite ends_with_workspace. reflexivity. }
  split; [apply Hj|exact Hj].
Qed.

(** Two project roots get the same JDT LS workspace data directory exactly
    when their [simple_hash] values are equal: the lower-case hexadecimal
    name loses nothing. *)
Theorem workspace_dir_collision e root1 root2 :
  workspace_data_dir e root1 = workspace_data_dir e root2 <->
  simple_hash root1 = simple_hash root2.
Proof.
  destruct (workspace_data_dir_eq e root1) as [base [H1 H]].
  rewrite H1, (H root2). split.
  - intros Heq. apply str_app_cancel in Heq. apply (str_app_cancel "/") in Heq.
    apply (f_equal parse_hex) in Heq.
    rewrite !lower_hex_parse in Heq by apply simple_hash_range. congruence.
  - intros ->. reflexivity.
Qed.

(* ------------------------------------------------------------------ *)
(** ** The commands' JSON helpers *)

Lemma str_strip_prefix_app pre s : str_strip_prefix pre (pre ++ s)%string = Some s.
Proof.
  induction pre as [|c pre IH]; [destruct s; reflexivity|].
  rewrite str_app_cons. simpl. rewrite Ascii.eqb_refl. exact IH.
Qed.

(** [uri_to_path] undoes [path_to_uri], and [path_to_uri] undoes
    [uri_to_path] exactly on the URIs that start with [file://]. *)
Theorem uri_path_roundtrip p u :
  uri_to_path (path_to_uri p) = p /\
  (path_to_uri (uri_to_path u) = u <-> exists q, u = path_to_uri q).
Proof.
  assert (H : forall q, uri_to_path (path_to_uri q) = q).
  { intros q. unfold uri_to_path, path_to_uri. rewrite str_strip_prefix_app. reflexivity. }
  split; [apply H|]. split.
  - intros Hu. exists (uri_to_path u). symmetry. exact Hu.
  - intros [q ->]. rewrite H. reflexivity.
Qed.

Lemma as_u32_range n : 0 <= as_u32 n < 2 ^ 32.
Proof. unfold as_u32. apply Z.mod_pos_bound. lia. Qed.

(** For an array of completion items, or a completion list object with
    such an array under [items], the labels of the result are the string
    labels of the items, in order; items without one are dropped. *)
Theorem completion_labels v items :
  (v = JArray items \/ (as_array v = None /\ value_get "items" v = Some (JArray items))) ->
  map ci_label (parse_completions v)
    = filter_map (fun item => value_get "label" item ≫= as_str) items.
Proof.
  intros Hv.
  assert (Hp : parse_completions v = filter_map parse_completion_item items).
  { unfold parse_completions. destruct Hv as [-> | [Ha Hi]]; [reflexivity|].
    rewrite Ha, Hi. reflexivity. }
  rewrite Hp. clear Hp Hv. induction items as [|it items IH]; [reflexivity|].
  simpl. unfold parse_completion_item at 1.
  destruct (value_get "label" it ≫= as_str); simpl; rewrite IH; reflexivity.
Qed.

Lemma completion_labels_witness :
  map ci_label (parse_completions completion_list)
    = filter_map (fun item => value_get "label" item ≫= as_str)
        [JObject [("label", JString "toString"); ("kind", JNumber (NPosInt 2))];
         JObject [("kind", JNumber (NPosInt 6))];
         JObject [("label", JString "length");
                  ("textEdit", JObject [("newText", JString "length()")])]].
Proof. apply completion_labels. right. split; reflexivity. Defined.

(** [lsp_hover] returns a hover only when the reply was a non-null result,
    and its contents are never empty. *)
Theorem hover_nonempty reply h :
  lsp_hover reply = Ok (Some h) ->
  hover_contents h <> EmptyString /\ exists v, reply = Ok v /\ v <> JNull.
Proof.
  unfold lsp_hover. destruct reply as [v|e]; [|discriminate].
  destruct (is_null v) eqn:En; [discriminate|].
  match goal with |- context [String.eqb ?c ""] => destruct (String.eqb c "") eqn:Ec end;
    [discriminate|].
  intros H. injection H as <-. simpl. split.
  - intros Hc. rewrite Hc in Ec. discriminate.
  - exists v. split; [reflexivity|]. intros ->. discriminate.
Qed.

Lemma hover_nonempty_witness :
  hover_contents {| hover_contents := "int x" |} <> EmptyString /\
  exists v, (Ok hover_reply : result json string) = Ok v /\ v <> JNull.
Proof. apply (hover_nonempty (Ok hover_reply)). vm_compute. reflexivity. Defined.

(** Hover contents given as an array of strings are joined with blank
    lines. *)
Theorem hover_marked_strings l :
  extract_hover_contents (JArray (map JString l)) = join (nl ++ nl) l.
Proof.
  unfold extract_hover_contents. simpl. f_equal.
  induction l as [|s l IH]; [reflexivity|]. simpl. rewrite IH. reflexivity.
Qed.

(** [lsp_signature_help] returns a result only for a non-null reply with
    at least one signature, and its active signature and parameter fit a
    [u32]. *)
Theorem signature_help_nonempty reply sh :
  lsp_signature_help reply = Ok (Some sh) ->
  signatures sh <> [] /\
  0 <= active_signature sh < 2 ^ 32 /\ 0 <= active_parameter sh < 2 ^ 32 /\
  exists v, reply = Ok v /\ v <> JNull.
Proof.
  unfold lsp_signature_help. destruct reply as [v|e]; [|discriminate].
  destruct (is_null v) eqn:En; [discriminate|]. cbv zeta.
  match goal with |- context [match ?s with [] => _ | _ :: _ => _ end] =>
    destruct s as [|s0 ss] eqn:Es end; [discriminate|].
  intros H. injection H as <-. simpl.
  split; [discriminate|]. split; [apply as_u32_range|]. split; [apply as_u32_range|].
  exists v. split; [reflexivity|]. intros ->. discriminate.
Qed.

Lemma signature_help_nonempty_witness :
  exists sh, lsp_signature_help (Ok signature_reply) = Ok (Some sh) /\
  signatures sh <> [] /\
  0 <= active_signature sh < 2 ^ 32 /\ 0 <= active_parameter sh < 2 ^ 32 /\
  exists v, (Ok signature_reply : result json string) = Ok v /\ v <> JNull.
Proof.
  eexists. split; [vm_compute; reflexivity|].
  apply signature_help_nonempty. vm_compute. reflexivity.
Defined.

(* ------------------------------------------------------------------ *)
(** ** The workspace folder name *)

Lemma split_slash_no_slash cur l :
  Forall (fun c => nat_of_ascii c <> 47%nat) l ->
  split_slash_aux cur l = [string_of_list_ascii (rev cur ++ l)].
Proof.
  revert cur. induction l as [|c l IH]; intros cur Hl; simpl.
  - rewrite app_nil_r. reflexivity.
  - inversion Hl as [|? ? Hc Hl']; subst.
    destruct (Nat.eqb_spec (nat_of_ascii c) 47); [contradiction|].
    rewrite IH by exact Hl'. simpl. rewrite <- app_assoc. reflexivity.
Qed.

Lemma split_slash_app cur l1 l2 :
  exists pre, split_slash_aux cur (l1 ++ "/"%char :: l2) = (pre ++ split_slash_aux [] l2)%list.
Proof.
  revert cur. induction l1 as [|c l1 IH]; intros cur; simpl.
  - eexists [_]. reflexivity.
  - destruct (nat_of_ascii c =? 47)%nat.
    + destruct (IH []) as [pre Hp]. rewrite Hp. eexists (_ :: pre). reflexivity.
    + apply IH.
Qed.

Lemma list_ascii_of_string_app (a b : string) :
  list_ascii_of_string (a ++ b) = (list_ascii_of_string a ++ list_ascii_of_string b)%list.
Proof.
  induction a as [|c a IH]; [reflexivity|]. rewrite str_app_cons. simpl. rewrite IH. reflexivity.
Qed.

Lemma string_of_list_ascii_of_string s : string_of_list_ascii (list_ascii_of_string s) = s.
Proof. induction s as [|c s IH]; simpl; [reflexivity|]. rewrite IH. reflexivity. Qed.

(** The last component of [dir/name] is [name] (for a name with no [/]
    other than [.] and [..]): it is the workspace folder name sent in the
    [initialize] params. *)
Theorem file_name_last dir name :
  Forall (fun c => nat_of_ascii c <> 47%nat) (list_ascii_of_string name) ->
  name <> "" -> name <> "." -> name <> ".." ->
  file_name (dir ++ "/" ++ name)%string = Some name.
Proof.
  intros Hs H0 H1 H2. unfold file_name.
  rewrite list_ascii_of_string_app.
  change (list_ascii_of_string ("/" ++ name)) with ("/"%char :: list_ascii_of_string name).
  destruct (split_slash_app [] (list_ascii_of_string dir) (list_ascii_of_string name))
    as [pre Hp].
  rewrite Hp, split_slash_no_slash by exact Hs. simpl.
  rewrite string_of_list_ascii_of_string, List.filter_app. simpl.
  destruct (String.eqb_spec name "") as [|_]; [contradiction|].
  destruct (String.eqb_spec name ".") as [|_]; [contradiction|]. simpl.
  rewrite last_snoc.
  destruct (String.eqb_spec name "..") as [|_]; [contradiction|reflexivity].
Qed.

Lemma file_name_last_witness :
  file_name ("/home/u" ++ "/" ++ "proj")%string = Some "proj".
Proof.
  apply file_name_last; [|discriminate|discriminate|discriminate].
  repeat constructor; simpl; discriminate.
Defined.
